(** * erela.js-deezer: the Deezer search plugin

    A shallow embedding of the plugin's source (the [Deezer] class, its
    [REGEX], [buildSearch] and the three catalog fetchers) and the
    properties its specification states about it.

    Conventions of the embedding.
    - JavaScript values that the code inspects dynamically (truthiness,
      [typeof]) are values of [jsval]; fields the code only passes on keep
      their declared type.
    - Numbers are integers ([Z]) or [NaN]: the catalog reports durations in
      whole seconds, and limits are counts.  The numbers of the source are
      IEEE doubles, whose sums and products are those of [Z] as long as
      operands and result are safe integers ([MAX_SAFE_INTEGER]); statements
      about the value of a sum say so.
    - A computation that may throw (or an [async] function whose promise may
      reject) is a [Completion]; the awaits of the source are sequential, so
      an [async] function is the sequence of its steps.  Every call to an
      external collaborator (the HTTP client, the host's search, a track's
      [resolve]) is logged in a trace, so that "no fetch is performed" is a
      statement about the trace.
    - [load] is the capture of the host's search: the captured function is
      the [_search] of the environment, and [search] is what replaces it.
      [track.resolve()] is called without [await]: its completion is what
      the call itself returns or throws, not how the resolution ends.  The
      host's [resolve] is an [async] method, so the call returns
      ([asynchronous]); what the source does with a call that throws is
      modelled as it is written. *)

From Stdlib Require Import String Ascii List ZArith Bool Arith Lia.
Import ListNotations.
Open Scope string_scope.

(** ** JavaScript strings and patterns *)

Module Pattern.

(** Character classes of the pattern language ([\w] and [\d] without the
    unicode flag are ASCII only). *)
Definition in_range (lo hi c : ascii) : bool :=
  (nat_of_ascii lo <=? nat_of_ascii c)%nat && (nat_of_ascii c <=? nat_of_ascii hi)%nat.

Definition is_digit (c : ascii) : bool := in_range "0" "9" c.

Definition is_word (c : ascii) : bool :=
  in_range "a" "z" c || in_range "A" "Z" c || is_digit c || Ascii.eqb c "_".

Inductive charclass := Word | Digit.

Definition in_class (cl : charclass) (c : ascii) : bool :=
  match cl with Word => is_word c | Digit => is_digit c end.

(** The fragment of JavaScript regular expressions that [REGEX] is written
    in.  [Group] is a capturing group (numbered from 1); non-capturing
    groups are plain nesting.  [Opt] and [Plus] are the greedy quantifiers
    [?] and [+]; the source applies [+] to a character class only. *)
Inductive regex :=
| Bol                                   (* ^ *)
| Empty                                 (* the empty alternative *)
| Chr (c : ascii)
| Lit (s : string)                      (* a run of literal characters *)
| Class (cl : charclass)                (* \w, \d *)
| Seq (r1 r2 : regex)
| Alt (r1 r2 : regex)                   (* r1|r2 *)
| Opt (r : regex)                       (* r? *)
| Rep (n : nat) (r : regex)             (* r{n} *)
| Plus (cl : charclass)                 (* \d+ *)
| Group (i : nat) (r : regex).          (* (r) *)

(** Captures: the latest substring recorded for each group number. *)
Definition captures := list (nat * string).

Fixpoint capture (i : nat) (cs : captures) : option string :=
  match cs with
  | [] => None
  | (j, s) :: cs' => if (i =? j)%nat then Some s else capture i cs'
  end.

(** A matcher state is the remaining input, the index reached, and the
    captures so far; the continuation is the rest of the pattern. *)
Definition cont := string -> nat -> captures -> option (nat * captures).

Fixpoint lit (l s : string) (pos : nat) : option (string * nat) :=
  match l with
  | EmptyString => Some (s, pos)
  | String c l' =>
      match s with
      | String c' s' => if Ascii.eqb c c' then lit l' s' (S pos) else None
      | EmptyString => None
      end
  end.

(** Greedy [cl+]: consume as many characters as possible, then give them
    back one at a time until the continuation succeeds. *)
Fixpoint plus (cl : charclass) (s : string) (pos : nat) (cs : captures)
         (k : cont) : option (nat * captures) :=
  match s with
  | String c s' =>
      if in_class cl c then
        match plus cl s' (S pos) cs k with
        | Some r => Some r
        | None => k s' (S pos) cs
        end
      else None
  | EmptyString => None
  end.

(** Backtracking matcher, in continuation-passing style: alternatives are
    tried left to right, a quantifier first tries to consume. *)
Fixpoint rmatch (r : regex) (s : string) (pos : nat) (cs : captures)
         (k : cont) {struct r} : option (nat * captures) :=
  match r with
  | Bol => if (pos =? 0)%nat then k s pos cs else None
  | Empty => k s pos cs
  | Chr c =>
      match s with
      | String c' s' => if Ascii.eqb c c' then k s' (S pos) cs else None
      | EmptyString => None
      end
  | Lit l =>
      match lit l s pos with
      | Some (s', pos') => k s' pos' cs
      | None => None
      end
  | Class cl =>
      match s with
      | String c s' => if in_class cl c then k s' (S pos) cs else None
      | EmptyString => None
      end
  | Seq r1 r2 =>
      rmatch r1 s pos cs (fun s' pos' cs' => rmatch r2 s' pos' cs' k)
  | Alt r1 r2 =>
      match rmatch r1 s pos cs k with
      | Some x => Some x
      | None => rmatch r2 s pos cs k
      end
  | Opt r1 =>
      match rmatch r1 s pos cs k with
      | Some x => Some x
      | None => k s pos cs
      end
  | Rep n r1 =>
      (fix rep (n : nat) (s : string) (pos : nat) (cs : captures) :=
         match n with
         | O => k s pos cs
         | S n' => rmatch r1 s pos cs (fun s' pos' cs' => rep n' s' pos' cs')
         end) n s pos cs
  | Plus cl => plus cl s pos cs k
  | Group i r1 =>
      rmatch r1 s pos cs
        (fun s' pos' cs' => k s' pos' ((i, substring 0 (pos' - pos) s) :: cs'))
  end.

(** One attempt at a fixed start index: the end index and the captures. *)
Definition attempt (r : regex) (s : string) (pos : nat) : option (nat * captures) :=
  rmatch r s pos [] (fun _ pos' cs => Some (pos', cs)).

(** [String.prototype.match] with a non-global pattern: the first start
    index at which an attempt succeeds, scanning left to right.  The result
    array holds the whole match followed by the groups. *)
Fixpoint scan (r : regex) (groups : nat) (whole s : string) (pos : nat)
  : option (list (option string)) :=
  match attempt r s pos with
  | Some (e, cs) =>
      Some (Some (substring pos (e - pos) whole)
              :: map (fun i => capture i cs) (seq 1 groups))
  | None =>
      match s with
      | String _ s' => scan r groups whole s' (S pos)
      | EmptyString => None
      end
  end.

Definition js_match (r : regex) (groups : nat) (s : string) : option (list (option string)) :=
  scan r groups s s 0.

End Pattern.

(** ** JavaScript values, errors and effects *)

(** Values whose truthiness or [typeof] the code tests.  [JObject] stands for
    any object or array (always truthy, [typeof] "object"). *)
Inductive jsval :=
| JUndefined
| JNull
| JBool (b : bool)
| JNum (n : Z)
| JStr (s : string)
| JObject.

Definition str_truthy (s : string) : bool :=
  match s with EmptyString => false | String _ _ => true end.

Definition truthy (v : jsval) : bool :=
  match v with
  | JUndefined | JNull => false
  | JBool b => b
  | JNum n => negb (n =? 0)%Z
  | JStr s => str_truthy s
  | JObject => true
  end.

Definition typeof (v : jsval) : string :=
  match v with
  | JUndefined => "undefined"
  | JNull => "object"
  | JBool _ => "boolean"
  | JNum _ => "number"
  | JStr _ => "string"
  | JObject => "object"
  end.

(** Numbers: an integer or [NaN] (the product of an absent duration).  The
    integer stands for the double of that value. *)
Inductive number := NaN | Num (z : Z).

(** [x || 0] on a number. *)
Definition or_zero (n : number) : Z :=
  match n with NaN => 0 | Num z => z end.

(** An optional string tested with [x ? _ : _]: absent and empty are falsy. *)
Definition opt_truthy (o : option string) : bool :=
  match o with Some s => str_truthy s | None => false end.

(** The class of an error: the two the plugin and the engine raise, and any
    other (an error of the HTTP client or of the host). *)
Inductive ErrorKind := ReferenceError | TypeError | HostError.

(** A thrown value.  Everything the fetchers and the HTTP client throw is an
    error object; [err_loadType] and [err_message] are the two properties the
    interceptor reads from it, and either may be absent. *)
Record jsError := mkError {
  err_kind : ErrorKind;
  err_loadType : option string;
  err_message : option string
}.

Definition new_error (k : ErrorKind) (msg : string) : jsError :=
  mkError k None (Some msg).

Inductive Completion (A : Type) :=
| Normal (a : A)
| Throw (e : jsError).
Arguments Normal {A} a.
Arguments Throw {A} e.

(** ** Data model (the interfaces of the source) *)

Record DeezerArtist := { artist_name : option string }.

(** A raw catalog track.  An absent [artist] or [duration] is [None]. *)
Record DeezerTrack := mkDeezerTrack {
  dt_artist : option DeezerArtist;
  dt_title : jsval;
  dt_duration : option Z
}.

(** The track list of an album payload.  A [None] element of [data] is a
    null entry of the array; a [None] field is a property missing from the
    payload. *)
Record AlbumTracks := { at_data : option (list (option DeezerTrack)) }.

Record Album := mkAlbum {
  album_name : option string;
  album_tracks : option AlbumTracks
}.

Record PlaylistItem := { pi_track : option DeezerTrack }.

Record PlaylistTracks := { pt_data : option (list (option PlaylistItem)) }.

Record Playlist := mkPlaylist {
  playlist_name : option string;
  playlist_tracks : option PlaylistTracks
}.

Record UnresolvedQuery := mkQuery {
  uq_title : string;
  uq_author : option string;
  uq_duration : number
}.

(** A track object of the host: unresolved when built, replaced in place by
    the playable track ([ut_track] set) when [resolve] succeeds. *)
Record UnresolvedTrack := mkTrack {
  ut_title : string;
  ut_author : option string;
  ut_duration : number;
  ut_requester : jsval;
  ut_track : option string
}.

Record Result := mkResult {
  res_tracks : list UnresolvedQuery;
  res_name : option string
}.

Record PlaylistInfo := mkPlaylistInfo { pl_name : string; pl_duration : Z }.
Record ExceptionInfo := mkException { ex_message : string; ex_severity : string }.

Record SearchResult := mkSearchResult {
  sr_loadType : string;
  sr_tracks : list UnresolvedTrack;
  sr_playlist : option PlaylistInfo;
  sr_exception : option ExceptionInfo
}.

(** The options as [check] accepts them: each key absent or of its type. *)
Record DeezerOptions := mkOptions {
  playlistLimit : option number;
  albumLimit : option number;
  convertUnresolved : option bool
}.

Record SearchQuery := mkSearchQuery { sq_source : option string; sq_query : string }.

(** The first argument of [search]: [string | SearchQuery]. *)
Inductive Query :=
| QString (s : string)
| QObject (q : SearchQuery).

(** ** Effects *)

Inductive Event :=
| HttpGet (url : string)
| HostSearch (query : Query) (requester : jsval)
| ResolveTrack (t : UnresolvedTrack).

(** The collaborators outside the plugin: the HTTP client (one typed view per
    endpoint, as the source's [Axios.get<T>]), the host's search captured by
    [load], and the host's [resolve] of a track (the state of the track
    object when the call returns, or the value the call throws; the promise
    the call returns is dropped by the source). *)
Record Env := mkEnv {
  Axios_get_track : string -> Completion (option DeezerTrack);
  Axios_get_album : string -> Completion Album;
  Axios_get_playlist : string -> Completion Playlist;
  _search : Query -> jsval -> Completion SearchResult;
  resolve : UnresolvedTrack -> Completion UnresolvedTrack
}.

(** Computations: the events performed, in order, and how they complete. *)
Definition M (A : Type) : Type := list Event * Completion A.

Definition ret {A} (a : A) : M A := ([], Normal a).
Definition lift {A} (c : Completion A) : M A := ([], c).
Definition perform {A} (ev : Event) (c : Completion A) : M A := ([ev], c).

Definition bind {A B} (m : M A) (f : A -> M B) : M B :=
  match m with
  | (t, Normal a) => let (t', r) := f a in ((t ++ t')%list, r)
  | (t, Throw e) => (t, Throw e)
  end.

(** [try { m } catch (e) { h e }] *)
Definition try_catch {A} (m : M A) (h : jsError -> M A) : M A :=
  match m with
  | (t, Normal a) => (t, Normal a)
  | (t, Throw e) => let (t', r) := h e in ((t ++ t')%list, r)
  end.

Notation "x <- m ;; k" := (bind m (fun x => k))
  (at level 61, m at next level, right associativity).

(** [Array.prototype.map] with a callback that may throw: elements are
    visited in order and the first throw ends the loop. *)
Fixpoint js_map {A B} (f : A -> M B) (l : list A) : M (list B) :=
  match l with
  | [] => ret []
  | x :: l' => y <- f x ;; ys <- js_map f l' ;; ret (y :: ys)
  end.

(** [.filter(x => x !== null)] / [.filter(x => !!x)] on an array of objects
    and nulls. *)
Fixpoint filter_non_null {A} (l : list (option A)) : list A :=
  match l with
  | [] => []
  | Some x :: l' => x :: filter_non_null l'
  | None :: l' => filter_non_null l'
  end.

(** [Array.prototype.splice(start, deleteCount)] with integer arguments: the
    removed elements (the value of the call) and what is left in the array. *)
Definition splice {A} (start deleteCount : Z) (l : list A) : list A * list A :=
  let len := Z.of_nat (length l) in
  let actualStart :=
    if (start <? 0)%Z then Z.max (len + start) 0 else Z.min start len in
  let actualDeleteCount := Z.min (Z.max deleteCount 0) (len - actualStart) in
  let a := Z.to_nat actualStart in
  let n := Z.to_nat actualDeleteCount in
  (firstn n (skipn a l), (firstn a l ++ skipn (a + n) l)%list).

(** ** The plugin *)

Import Pattern.

Definition BASE_URL : string := "https://api.deezer.com".

(** [/^(?:https?:\/\/|)?(?:www\.)?deezer\.com\/(?:\w{2}\/)?(track|album|playlist)\/(\d+)/] *)
Definition REGEX : regex :=
  Seq Bol
 (Seq (Opt (Alt (Seq (Lit "http") (Seq (Opt (Chr "s")) (Lit "://"))) Empty))
 (Seq (Opt (Lit "www."))
 (Seq (Lit "deezer.com/")
 (Seq (Opt (Seq (Rep 2 (Class Word)) (Chr "/")))
 (Seq (Group 1 (Alt (Lit "track") (Alt (Lit "album") (Lit "playlist"))))
 (Seq (Chr "/")
      (Group 2 (Plus Digit)))))))).

(** [tracks.reduce((acc, cur) => acc + (cur.duration || 0), 0)].  The
    additions are those of [Z]: those of the source while the accumulator
    stays a safe integer. *)
Definition total_duration (tracks : list UnresolvedTrack) : Z :=
  fold_left (fun acc cur => (acc + or_zero (ut_duration cur))%Z) tracks 0%Z.

(** [buildSearch].  A null [tracks], [error] or [name] argument is [None].
    The object literal is evaluated field by field: [tracks ?? []] first,
    then the playlist summary, whose [tracks.reduce] reads the argument
    itself and throws on null. *)
Definition buildSearch (loadType : string) (tracks : option (list UnresolvedTrack))
           (error : option string) (name : option string) : Completion SearchResult :=
  let tracks_field := match tracks with Some ts => ts | None => [] end in
  let exception_field :=
    match error with
    | Some msg => if str_truthy msg then Some (mkException msg "COMMON") else None
    | None => None
    end in
  match name with
  | Some n =>
      if str_truthy n then
        match tracks with
        | Some ts =>
            Normal (mkSearchResult loadType tracks_field
                      (Some (mkPlaylistInfo n (total_duration ts))) exception_field)
        | None =>
            Throw (new_error TypeError "Cannot read properties of null (reading 'reduce')")
        end
      else Normal (mkSearchResult loadType tracks_field None exception_field)
  | None => Normal (mkSearchResult loadType tracks_field None exception_field)
  end.

(** [track.duration * 1000]; an absent duration multiplies to [NaN].  The
    product is that of [Z]: that of the source while it is a safe integer. *)
Definition times_1000 (d : option Z) : number :=
  match d with Some n => Num (n * 1000) | None => NaN end.

(** [Deezer.convertToUnresolved].  The argument is [None] for a null or
    missing record. *)
Definition convertToUnresolved (track : option DeezerTrack) : Completion UnresolvedQuery :=
  match track with
  | None => Throw (new_error ReferenceError "The Deezer track object was not provided")
  | Some track =>
      match dt_artist track with
      | None => Throw (new_error ReferenceError "The track artist array was not provided")
      | Some artist =>
          if negb (truthy (dt_title track)) then
            Throw (new_error ReferenceError "The track title was not provided")
          else
            match dt_title track with
            | JStr title =>
                Normal (mkQuery title (artist_name artist) (times_1000 (dt_duration track)))
            | other =>
                Throw (new_error TypeError
                         ("The track name must be a string, received type " ++ typeof other))
            end
      end
  end.

(** [limit ? tracks.splice(0, limit) : tracks] *)
Definition apply_limit {A} (limit : option number) (tracks : list A) : list A :=
  match limit with
  | Some (Num n) => if negb (n =? 0)%Z then fst (splice 0 n tracks) else tracks
  | Some NaN => tracks
  | None => tracks
  end.

Definition name_or (name : option string) (placeholder : string) : string :=
  match name with
  | Some n => if str_truthy n then n else placeholder
  | None => placeholder
  end.

(** The [TypeError] of the engine for a property read on [undefined] or
    [null]; the wording is V8's. *)
Definition cannot_read {A} (value prop : string) : Completion A :=
  Throw (new_error TypeError
           ("Cannot read properties of " ++ value ++ " (reading '" ++ prop ++ "')")).

(** [album.tracks.data], as the receiver of [.map]. *)
Definition album_tracks_data (album : Album) : Completion (list (option DeezerTrack)) :=
  match album_tracks album with
  | None => cannot_read "undefined" "data"
  | Some tracks =>
      match at_data tracks with
      | None => cannot_read "undefined" "map"
      | Some data => Normal data
      end
  end.

(** [playlist.tracks.data], as the receiver of [.map]. *)
Definition playlist_tracks_data (playlist : Playlist)
  : Completion (list (option PlaylistItem)) :=
  match playlist_tracks playlist with
  | None => cannot_read "undefined" "data"
  | Some tracks =>
      match pt_data tracks with
      | None => cannot_read "undefined" "map"
      | Some data => Normal data
      end
  end.

(** The callback of [album.tracks.data.map]:
    [item => item.title ? Deezer.convertToUnresolved(item) : null]. *)
Definition album_item (item : option DeezerTrack) : Completion (option UnresolvedQuery) :=
  match item with
  | None => cannot_read "null" "title"
  | Some t =>
      if truthy (dt_title t) then
        match convertToUnresolved (Some t) with
        | Normal q => Normal (Some q)
        | Throw e => Throw e
        end
      else Normal None
  end.

(** The callback of [playlist.tracks.data.map]:
    [item => item.track.title ? Deezer.convertToUnresolved(item.track) : null]. *)
Definition playlist_item (item : option PlaylistItem) : Completion (option UnresolvedQuery) :=
  match item with
  | None => cannot_read "null" "track"
  | Some it =>
      match pi_track it with
      | None => cannot_read "undefined" "title"
      | Some t =>
          if truthy (dt_title t) then
            match convertToUnresolved (Some t) with
            | Normal q => Normal (Some q)
            | Throw e => Throw e
            end
          else Normal None
      end
  end.

Definition getAlbumTracks (env : Env) (options : DeezerOptions) (id : string) : M Result :=
  let url := BASE_URL ++ "/album/" ++ id in
  album <- perform (HttpGet url) (Axios_get_album env url) ;;
  data <- lift (album_tracks_data album) ;;
  mapped <- js_map (fun item => lift (album_item item)) data ;;
  let tracks := filter_non_null mapped in
  ret (mkResult (apply_limit (albumLimit options) tracks)
                (Some (name_or (album_name album) "Untitled album"))).

Definition getPlaylistTracks (env : Env) (options : DeezerOptions) (id : string) : M Result :=
  let url := BASE_URL ++ "/playlist/" ++ id in
  playlist <- perform (HttpGet url) (Axios_get_playlist env url) ;;
  data <- lift (playlist_tracks_data playlist) ;;
  mapped <- js_map (fun item => lift (playlist_item item)) data ;;
  let tracks := filter_non_null mapped in
  ret (mkResult (apply_limit (playlistLimit options) tracks)
                (Some (name_or (playlist_name playlist) "Untitled playlist"))).

Definition getTrack (env : Env) (id : string) : M Result :=
  let url := BASE_URL ++ "/track/" ++ id in
  data <- perform (HttpGet url) (Axios_get_track env url) ;;
  track <- lift (convertToUnresolved data) ;;
  ret (mkResult [track] None).

(** [this.functions], the dispatch table built by the constructor. *)
Definition functions (env : Env) (options : DeezerOptions)
  : list (string * (string -> M Result)) :=
  [ ("track", getTrack env);
    ("album", getAlbumTracks env options);
    ("playlist", getPlaylistTracks env options) ].

Fixpoint get_property {V} (key : string) (obj : list (string * V)) : option V :=
  match obj with
  | [] => None
  | (k, v) :: obj' => if String.eqb key k then Some v else get_property key obj'
  end.

(** A value used as a property key or inside a template literal. *)
Definition to_string (v : option string) : string :=
  match v with Some s => s | None => "undefined" end.

(** [key in obj], for an object whose prototype has no property of that
    name (the keys tested are the three kinds and "undefined"). *)
Definition js_in {V} (key : option string) (obj : list (string * V)) : bool :=
  match get_property (to_string key) obj with Some _ => true | None => false end.

(** The host's [TrackUtils.buildUnresolved(query, requester)]: a fresh
    unresolved track carrying the query's fields and the requester. *)
Definition buildUnresolved (query : UnresolvedQuery) (requester : jsval) : UnresolvedTrack :=
  mkTrack (uq_title query) (uq_author query) (uq_duration query) requester None.

Definition flag (b : option bool) : bool :=
  match b with Some true => true | _ => false end.

(** The callback of [data.tracks.map] inside [search]. *)
Definition build_track (env : Env) (options : DeezerOptions) (requester : jsval)
           (query : UnresolvedQuery) : M (option UnresolvedTrack) :=
  let track := buildUnresolved query requester in
  if flag (convertUnresolved options) then
    try_catch
      (resolved <- perform (ResolveTrack track) (resolve env track) ;; ret (Some resolved))
      (fun _ => ret None)
  else ret (Some track).

(** What [finalQuery] evaluates to: the query text, or, when the text of a
    structured query is empty, the query object itself. *)
Inductive FinalQuery :=
| FQString (s : string)
| FQObject (q : SearchQuery).

(** [(query as SearchQuery).query || (query as string)] *)
Definition finalQuery (query : Query) : FinalQuery :=
  match query with
  | QString s => FQString s
  | QObject q => if str_truthy (sq_query q) then FQString (sq_query q) else FQObject q
  end.

(** [const [, type, id] = finalQuery.match(REGEX) ?? []] *)
Definition destructure (m : option (list (option string))) : option string * option string :=
  match m with
  | Some (_ :: type :: id :: _) => (type, id)
  | Some (_ :: type :: _) => (type, None)
  | _ => (None, None)
  end.

Definition classify (fq : FinalQuery) : Completion (option string * option string) :=
  match fq with
  | FQString s => Normal (destructure (js_match REGEX 2 s))
  | FQObject _ => Throw (new_error TypeError "finalQuery.match is not a function")
  end.

Definition type_is (type : option string) (kind : string) : bool :=
  match type with Some t => String.eqb t kind | None => false end.

Definition coalesce {A} (o : option A) (d : A) : A :=
  match o with Some a => a | None => d end.

Definition dquote : string := String (ascii_of_nat 34) EmptyString.

(** The diagnostic of the branch for a kind without a handler; the three
    kinds are quoted in the source's message. *)
Definition incorrect_type_msg : string :=
  "Incorrect type for Deezer URL, must be one of "
    ++ dquote ++ "track" ++ dquote ++ ", "
    ++ dquote ++ "album" ++ dquote ++ " or "
    ++ dquote ++ "playlist" ++ dquote ++ ".".

(** [Deezer.search], the function installed over the host's search. *)
Definition search (env : Env) (options : DeezerOptions)
           (query : Query) (requester : jsval) : M SearchResult :=
  captures <- lift (classify (finalQuery query)) ;;
  let (type, id) := captures : option string * option string in
  if js_in type (functions env options) then
    try_catch
      (match get_property (to_string type) (functions env options) with
       | Some func =>
           data <- func (to_string id) ;;
           let loadType := if type_is type "track" then "TRACK_LOADED" else "PLAYLIST_LOADED" in
           let name :=
             if type_is type "playlist" || type_is type "album"
             then Some (name_or (res_name data) "Untitled")
             else None in
           built <- js_map (build_track env options requester) (res_tracks data) ;;
           let tracks := filter_non_null built in
           lift (buildSearch loadType (Some tracks) None name)
       | None =>
           lift (buildSearch "LOAD_FAILED" None (Some incorrect_type_msg) None)
       end)
      (fun e =>
         lift (buildSearch (coalesce (err_loadType e) "LOAD_FAILED") None (err_message e) None))
  else perform (HostSearch query requester) (_search env query requester).

(** ** Construction *)

(** A value a caller may put under a key of the options object. *)
Inductive value :=
| VUndefined
| VNull
| VBoolean (b : bool)
| VNumber (n : number)
| VString (s : string)
| VObject.

Definition typeof_value (v : value) : string :=
  match v with
  | VUndefined => "undefined"
  | VNull => "object"
  | VBoolean _ => "boolean"
  | VNumber _ => "number"
  | VString _ => "string"
  | VObject => "object"
  end.

(** The options object as the caller passes it; a key that is not there
    reads as [VUndefined]. *)
Record RawOptions := mkRawOptions {
  raw_playlistLimit : value;
  raw_albumLimit : value;
  raw_convertUnresolved : value
}.

(** ['Deezer option "key" must be a boolean.'] and its siblings. *)
Definition option_type_msg (key expected : string) : string :=
  "Deezer option " ++ dquote ++ key ++ dquote ++ " must be " ++ expected ++ ".".

(** [typeof v !== "undefined" && typeof v !== expected] *)
Definition wrong_type (v : value) (expected : string) : bool :=
  negb (String.eqb (typeof_value v) "undefined")
  && negb (String.eqb (typeof_value v) expected).

(** [check].  The argument is [None] when no options object is passed. *)
Definition check (options : option RawOptions) : Completion unit :=
  match options with
  | None => Throw (new_error TypeError "DeezerOptions must not be empty.")
  | Some options =>
      if wrong_type (raw_convertUnresolved options) "boolean" then
        Throw (new_error TypeError (option_type_msg "convertUnresolved" "a boolean"))
      else if wrong_type (raw_playlistLimit options) "number" then
        Throw (new_error TypeError (option_type_msg "playlistLimit" "a number"))
      else if wrong_type (raw_albumLimit options) "number" then
        Throw (new_error TypeError (option_type_msg "albumLimit" "a number"))
      else Normal tt
  end.

(** The typed reading of a key of the copied options. *)
Definition as_number (v : value) : option number :=
  match v with VNumber n => Some n | _ => None end.

Definition as_boolean (v : value) : option bool :=
  match v with VBoolean b => Some b | _ => None end.

(** [this.options = { ...options }] *)
Definition copy_options (options : option RawOptions) : DeezerOptions :=
  match options with
  | Some o =>
      mkOptions (as_number (raw_playlistLimit o)) (as_number (raw_albumLimit o))
                (as_boolean (raw_convertUnresolved o))
  | None => mkOptions None None None
  end.

(** [new Deezer(options)]: the options of the instance, with which its
    [functions] and its [search] run. *)
Definition Deezer_new (options : option RawOptions) : Completion DeezerOptions :=
  match check options with
  | Throw e => Throw e
  | Normal _ => Normal (copy_options options)
  end.

(** The options object that holds the keys of a [DeezerOptions]. *)
Definition to_raw (o : DeezerOptions) : RawOptions :=
  mkRawOptions
    (match playlistLimit o with Some n => VNumber n | None => VUndefined end)
    (match albumLimit o with Some n => VNumber n | None => VUndefined end)
    (match convertUnresolved o with Some b => VBoolean b | None => VUndefined end).

(** ** Installation *)

(** A function that [manager.search] or [this._search] can hold: a search of
    the host (the manager's own, bound to it), or the plugin's [search] bound
    to the plugin. *)
Inductive SearchFunction :=
| HostFunction (host : Query -> jsval -> Completion SearchResult)
| BoundSearch.

(** The slots [load] writes: the [search] property of each manager (managers
    are told apart by their address) and the plugin's private [manager] and
    [_search], unset until the first [load]. *)
Record Heap := mkHeap {
  manager_search : nat -> SearchFunction;
  this_manager : option nat;
  this__search : option SearchFunction
}.

(** [load(manager)] *)
Definition load (manager : nat) (h : Heap) : Heap :=
  mkHeap (fun m => if (m =? manager)%nat then BoundSearch else manager_search h m)
         (Some manager)
         (Some (manager_search h manager)).

(** The [try] statement of [search], for a type that is a key of
    [this.functions]. *)
Definition dispatch (env : Env) (options : DeezerOptions) (requester : jsval)
           (type id : option string) : M SearchResult :=
  try_catch
    (match get_property (to_string type) (functions env options) with
     | Some func =>
         data <- func (to_string id) ;;
         let loadType := if type_is type "track" then "TRACK_LOADED" else "PLAYLIST_LOADED" in
         let name :=
           if type_is type "playlist" || type_is type "album"
           then Some (name_or (res_name data) "Untitled")
           else None in
         built <- js_map (build_track env options requester) (res_tracks data) ;;
         let tracks := filter_non_null built in
         lift (buildSearch loadType (Some tracks) None name)
     | None =>
         lift (buildSearch "LOAD_FAILED" None (Some incorrect_type_msg) None)
     end)
    (fun e =>
       lift (buildSearch (coalesce (err_loadType e) "LOAD_FAILED") None (err_message e) None)).

(** A call of a function held in a slot, with the heap as it is at the
    call.  The plugin's [search] runs as above and ends in a call of whatever
    [this._search] holds; that call may be a call of [search] again, so the
    interpreter counts calls down, and [None] is a call that has not
    completed within the count. *)
Fixpoint invoke (fuel : nat) (env : Env) (options : DeezerOptions) (h : Heap)
         (f : SearchFunction) (query : Query) (requester : jsval)
  : option (M SearchResult) :=
  match fuel with
  | O => None
  | S fuel' =>
      match f with
      | HostFunction host => Some (perform (HostSearch query requester) (host query requester))
      | BoundSearch =>
          match classify (finalQuery query) with
          | Throw e => Some ([], Throw e)
          | Normal (type, id) =>
              if js_in type (functions env options) then
                Some (dispatch env options requester type id)
              else
                match this__search h with
                | Some delegate => invoke fuel' env options h delegate query requester
                | None =>
                    Some ([], Throw (new_error TypeError "this._search is not a function"))
                end
          end
      end
  end.

(** The environment in which the captured search is the given one. *)
Definition capturing (env : Env) (host : Query -> jsval -> Completion SearchResult) : Env :=
  mkEnv (Axios_get_track env) (Axios_get_album env) (Axios_get_playlist env)
        host (resolve env).

(** ** Specification-level notions *)

(** The normalized sequence of a raw list under a per-item callback: items
    the callback maps to null are skipped, the others are kept in catalog
    order, and the first item the callback throws on fails the whole list. *)
Fixpoint collect {A} (f : A -> Completion (option UnresolvedQuery)) (l : list A)
  : Completion (list UnresolvedQuery) :=
  match l with
  | [] => Normal []
  | x :: l' =>
      match f x with
      | Throw e => Throw e
      | Normal o =>
          match collect f l' with
          | Throw e => Throw e
          | Normal qs => Normal (match o with Some q => q :: qs | None => qs end)
          end
      end
  end.

(** What a fetcher returns once the payload's track list is known. *)
Definition fetched (limit : option number) (name : string)
           (c : Completion (list UnresolvedQuery)) : Completion Result :=
  match c with
  | Normal qs => Normal (mkResult (apply_limit limit qs) (Some name))
  | Throw e => Throw e
  end.

Definition album_url (id : string) : string := BASE_URL ++ "/album/" ++ id.
Definition playlist_url (id : string) : string := BASE_URL ++ "/playlist/" ++ id.
Definition track_url (id : string) : string := BASE_URL ++ "/track/" ++ id.

(** A value that "was not provided", in the words of the normalizer's
    errors: what [!v] tests, that is a missing or null value or any other
    falsy one (the empty string, 0, false). *)
Definition not_provided (v : jsval) : Prop := truthy v = false.

(** A value that is neither absent nor a number (resp. a boolean): what
    [check] refuses under a key.  Null is such a value. *)
Definition not_a_number (v : value) : Prop :=
  match v with VUndefined | VNumber _ => False | _ => True end.

Definition not_a_boolean (v : value) : Prop :=
  match v with VUndefined | VBoolean _ => False | _ => True end.

(** *** Catalog URLs *)

(** The longest prefix of a string made of characters of a class, and what
    follows it. *)
Fixpoint span (cl : charclass) (s : string) : string * string :=
  match s with
  | String c s' =>
      if in_class cl c then let (d, rest) := span cl s' in (String c d, rest)
      else (EmptyString, s)
  | EmptyString => (EmptyString, EmptyString)
  end.

Fixpoint all_in (cl : charclass) (s : string) : bool :=
  match s with
  | String c s' => in_class cl c && all_in cl s'
  | EmptyString => true
  end.

Definition starts_in (cl : charclass) (s : string) : bool :=
  match s with
  | String c _ => in_class cl c
  | EmptyString => false
  end.

Definition kinds : list string := ["track"; "album"; "playlist"].

Definition locale_segment (l : string) : Prop :=
  l = "" \/ exists a b, is_word a = true /\ is_word b = true
                        /\ l = String a (String b "/").

(** The shape of a catalog URL of a given kind and id: an optional scheme, an
    optional [www.], the host, an optional two-letter locale segment, the
    kind, and the id, which is the whole run of digits that follows. *)
Inductive catalog_url (kind id : string) : string -> Prop :=
| CatalogUrl (scheme www locale rest : string) :
    In scheme [""; "http://"; "https://"] ->
    In www [""; "www."] ->
    locale_segment locale ->
    In kind kinds ->
    id <> "" ->
    all_in Digit id = true ->
    starts_in Digit rest = false ->
    catalog_url kind id
      (scheme ++ www ++ "deezer.com/" ++ locale ++ kind ++ "/" ++ id ++ rest).

(** The parts of [REGEX], in order. *)
Definition scheme_part : regex :=
  Opt (Alt (Seq (Lit "http") (Seq (Opt (Chr "s")) (Lit "://"))) Empty).
Definition www_part : regex := Opt (Lit "www.").
Definition host_part : regex := Lit "deezer.com/".
Definition locale_part : regex := Opt (Seq (Rep 2 (Class Word)) (Chr "/")).
Definition kind_part : regex :=
  Group 1 (Alt (Lit "track") (Alt (Lit "album") (Lit "playlist"))).
Definition id_part : regex := Group 2 (Plus Digit).


(** *** Outcomes *)

(** The sum of the durations of a track list, a missing one counting 0. *)
Fixpoint sum_durations (tracks : list UnresolvedTrack) : Z :=
  match tracks with
  | [] => 0
  | t :: rest =>
      match ut_duration t with
      | Num ms => ms + sum_durations rest
      | NaN => sum_durations rest
      end
  end%Z.

(** [Number.MAX_SAFE_INTEGER].  The numbers of the source are IEEE doubles;
    sums and products of integers are exact, and agree with those of [Z], as
    long as operands and result stay within this bound. *)
Definition MAX_SAFE_INTEGER : Z := 2 ^ 53 - 1.

Definition safe_integer (z : Z) : Prop :=
  (- MAX_SAFE_INTEGER <= z <= MAX_SAFE_INTEGER)%Z.

(** The sum of the magnitudes of the durations of a track list.  When it is
    a safe integer, so is every duration and every partial sum of them. *)
Fixpoint sum_magnitudes (tracks : list UnresolvedTrack) : Z :=
  match tracks with
  | [] => 0
  | t :: rest =>
      match ut_duration t with
      | Num ms => Z.abs ms + sum_magnitudes rest
      | NaN => sum_magnitudes rest
      end
  end%Z.

(** The host's [resolve] is an [async] method: a call of it returns a
    promise and cannot throw into its caller, however the resolution ends. *)
Definition asynchronous (resolver : UnresolvedTrack -> Completion UnresolvedTrack) : Prop :=
  forall track, exists track', resolver track = Normal track'.

(** The call of an [async] resolver as the source makes it, without [await].
    The call starts the resolution and returns at once, the track object
    still as it was built; how the resolution ends ([settle]: the playable
    track that is written into the object, or the error the promise is
    rejected with) is seen by who awaits the promise, and nobody does. *)
Definition unawaited (settle : UnresolvedTrack -> Completion UnresolvedTrack)
           (track : UnresolvedTrack) : Completion UnresolvedTrack :=
  Normal track.

(** The track a descriptor ends up as under eager resolution, if any. *)
Definition resolution (env : Env) (requester : jsval) (q : UnresolvedQuery)
  : option UnresolvedTrack :=
  match resolve env (buildUnresolved q requester) with
  | Normal t => Some t
  | Throw _ => None
  end.

(** The tracks of the outcome for the descriptors a fetcher returned: all of
    them, unresolved, or under eager resolution those whose resolution
    succeeded, in the order of the descriptors. *)
Definition survivors (env : Env) (options : DeezerOptions) (requester : jsval)
           (qs : list UnresolvedQuery) : list UnresolvedTrack :=
  if flag (convertUnresolved options) then
    flat_map (fun q => match resolution env requester q with
                       | Some t => [t]
                       | None => []
                       end) qs
  else map (fun q => buildUnresolved q requester) qs.

(** The resolver calls made for them: one per descriptor under eager
    resolution, none otherwise. *)
Definition resolutions (options : DeezerOptions) (requester : jsval)
           (qs : list UnresolvedQuery) : list Event :=
  if flag (convertUnresolved options) then
    map (fun q => ResolveTrack (buildUnresolved q requester)) qs
  else [].

Definition load_type (kind : string) : string :=
  if String.eqb kind "track" then "TRACK_LOADED" else "PLAYLIST_LOADED".

Definition is_container (kind : string) : bool :=
  String.eqb kind "playlist" || String.eqb kind "album".

(** The outcome of a successful fetch. *)
Definition loaded (kind : string) (name : option string) (tracks : list UnresolvedTrack)
  : SearchResult :=
  mkSearchResult (load_type kind) tracks
    (if is_container kind
     then Some (mkPlaylistInfo (name_or name "Untitled") (total_duration tracks))
     else None)
    None.

(** The outcome of a failed fetch. *)
Definition failed (e : jsError) : SearchResult :=
  mkSearchResult (coalesce (err_loadType e) "LOAD_FAILED") []
    None
    (match err_message e with
     | Some msg => if str_truthy msg then Some (mkException msg "COMMON") else None
     | None => None
     end).

(** ** Sample catalog data *)

Module Sample.

Definition artist : DeezerArtist := {| artist_name := Some "Daft Punk" |}.

Definition track (title : string) (seconds : Z) : DeezerTrack :=
  mkDeezerTrack (Some artist) (JStr title) (Some seconds).

(** A record with an artist but no title. *)
Definition untitled : DeezerTrack := mkDeezerTrack (Some artist) JUndefined (Some 200%Z).

Definition five : list (option DeezerTrack) :=
  [ Some (track "One More Time" 320); Some (track "Aerodynamic" 212);
    Some (track "Digital Love" 301); Some (track "Harder Better Faster Stronger" 224);
    Some (track "Crescendolls" 211) ].

Definition descriptor (title : string) (seconds : Z) : UnresolvedQuery :=
  mkQuery title (Some "Daft Punk") (Num (seconds * 1000)).

Definition five_normalized : list UnresolvedQuery :=
  [ descriptor "One More Time" 320; descriptor "Aerodynamic" 212;
    descriptor "Digital Love" 301; descriptor "Harder Better Faster Stronger" 224;
    descriptor "Crescendolls" 211 ].

Definition album : Album :=
  mkAlbum (Some "Discovery") (Some {| at_data := Some five |}).

(** The same album with a title-less record in third place. *)
Definition album_with_gap : Album :=
  mkAlbum (Some "Discovery")
          (Some {| at_data := Some (firstn 2 five ++ Some untitled :: skipn 2 five)%list |}).

Definition playlist_with_gap : Playlist :=
  mkPlaylist (Some "Favourites")
             (Some {| pt_data :=
                        Some (map (fun t => Some {| pi_track := t |})
                                  (firstn 2 five ++ Some untitled :: skipn 2 five)%list) |}).

Definition transport_down : jsError :=
  mkError HostError None (Some "Request failed with status code 503").

Definition host_result : SearchResult :=
  mkSearchResult "SEARCH_RESULT" [] None None.

(** A resolver that always succeeds: the track becomes playable. *)
Definition resolve_ok (t : UnresolvedTrack) : Completion UnresolvedTrack :=
  Normal (mkTrack (ut_title t) (ut_author t) (ut_duration t) (ut_requester t)
                  (Some "QAAAjQIAJURhZnQgUHVuaw")).

(** A resolver that fails for the track with the given title only. *)
Definition resolve_except (title : string) (t : UnresolvedTrack)
  : Completion UnresolvedTrack :=
  if String.eqb (ut_title t) title
  then Throw (new_error HostError "No tracks found.")
  else resolve_ok t.

Definition playable (title : string) (seconds : Z) : UnresolvedTrack :=
  mkTrack title (Some "Daft Punk") (Num (seconds * 1000)) JNull
          (Some "QAAAjQIAJURhZnQgUHVuaw").

(** A world in which every catalog endpoint answers with the payload given. *)
Definition env (t : option DeezerTrack) (a : Album) (p : Playlist)
           (r : UnresolvedTrack -> Completion UnresolvedTrack) : Env :=
  mkEnv (fun _ => Normal t) (fun _ => Normal a) (fun _ => Normal p)
        (fun _ _ => Normal host_result) r.

Definition options (limit : option number) (eager : option bool) : DeezerOptions :=
  mkOptions limit limit eager.

End Sample.

(** Payloads the catalog should not send, and does. *)
Module Faulty.

(** A record with a title and no artist. *)
Definition no_artist : DeezerTrack :=
  mkDeezerTrack None (JStr "Veridis Quo") (Some 345%Z).

(** The sample album with that record in third place. *)
Definition album : Album :=
  mkAlbum (Some "Discovery")
          (Some {| at_data :=
                     Some (firstn 2 Sample.five ++ Some no_artist :: skipn 2 Sample.five)%list |}).

(** The catalog's error body (an object with an [error] key only), read as
    a track, as an album and as a playlist. *)
Definition error_track : DeezerTrack := mkDeezerTrack None JUndefined None.
Definition error_album : Album := mkAlbum None None.
Definition error_playlist : Playlist := mkPlaylist None None.

End Faulty.

(** ** The monad *)

Lemma bind_ret_l {A B} (a : A) (f : A -> M B) : bind (ret a) f = f a.
Proof. unfold bind, ret. destruct (f a). reflexivity. Qed.

Lemma bind_lift_normal {A B} (a : A) (f : A -> M B) : bind (lift (Normal a)) f = f a.
Proof. apply bind_ret_l. Qed.

Lemma bind_perform {A B} (ev : Event) (c : Completion A) (f : A -> M B) :
  bind (perform ev c) f =
  match c with
  | Normal a => (ev :: fst (f a), snd (f a))
  | Throw e => ([ev], Throw e)
  end.
Proof. unfold bind, perform. destruct c; [destruct (f a)|]; reflexivity. Qed.

(** ** Arrays *)

Lemma js_map_collect {A} (f : A -> Completion (option UnresolvedQuery)) (l : list A) :
  exists c, js_map (fun x => lift (f x)) l = ([], c)
            /\ collect f l = match c with
                             | Normal m => Normal (filter_non_null m)
                             | Throw e => Throw e
                             end.
Proof.
  induction l as [|x l [c [Hc Hcol]]].
  - exists (Normal []). split; reflexivity.
  - cbn [js_map collect]. destruct (f x) as [o|e] eqn:Hx.
    + rewrite bind_lift_normal, Hc, Hcol. destruct c as [m|e].
      * exists (Normal (o :: m)). split; [reflexivity|]. destruct o; reflexivity.
      * exists (Throw e). split; reflexivity.
    + exists (Throw e). split; reflexivity.
Qed.

Lemma collect_app {A} (f : A -> Completion (option UnresolvedQuery)) (l1 l2 : list A) :
  collect f (l1 ++ l2) =
  match collect f l1 with
  | Throw e => Throw e
  | Normal qs1 =>
      match collect f l2 with
      | Throw e => Throw e
      | Normal qs2 => Normal (qs1 ++ qs2)%list
      end
  end.
Proof.
  induction l1 as [|x l1 IH]; simpl.
  - destruct (collect f l2); reflexivity.
  - destruct (f x) as [o|e]; [|reflexivity]. rewrite IH.
    destruct (collect f l1) as [qs1|e]; [|reflexivity].
    destruct (collect f l2) as [qs2|e]; [|reflexivity].
    destruct o; reflexivity.
Qed.

Lemma collect_skip {A} (f : A -> Completion (option UnresolvedQuery)) (l1 l2 : list A) (x : A) :
  f x = Normal None -> collect f (l1 ++ x :: l2) = collect f (l1 ++ l2).
Proof.
  intros Hx. rewrite !collect_app. simpl. rewrite Hx.
  destruct (collect f l1); [|reflexivity]. destruct (collect f l2); reflexivity.
Qed.

Lemma firstn_min_length {A} (n : nat) (l : list A) :
  firstn (Nat.min n (length l)) l = firstn n l.
Proof.
  destruct (Nat.le_ge_cases n (length l)).
  - rewrite Nat.min_l by assumption. reflexivity.
  - rewrite Nat.min_r by assumption. rewrite !firstn_all2; auto.
Qed.

Lemma splice_front {A} (n : Z) (l : list A) :
  (0 <= n)%Z -> splice 0 n l = (firstn (Z.to_nat n) l, skipn (Z.to_nat n) l).
Proof.
  intros Hn. unfold splice. change (0 <? 0)%Z with false. cbv iota.
  replace (Z.min 0 (Z.of_nat (length l))) with 0%Z by lia.
  replace (Z.to_nat (Z.min (Z.max n 0) (Z.of_nat (length l) - 0)))
    with (Nat.min (Z.to_nat n) (length l)) by lia.
  change (Z.to_nat 0) with 0%nat. cbn [skipn firstn app Nat.add].
  rewrite firstn_min_length. f_equal.
  destruct (Nat.le_ge_cases (Z.to_nat n) (length l)).
  - rewrite Nat.min_l by assumption. reflexivity.
  - rewrite Nat.min_r by assumption. rewrite !skipn_all2; auto.
Qed.

Lemma splice_negative_count {A} (n : Z) (l : list A) :
  (n < 0)%Z -> splice 0 n l = ([], l).
Proof.
  intros Hn. unfold splice. change (0 <? 0)%Z with false. cbv iota.
  replace (Z.min 0 (Z.of_nat (length l))) with 0%Z by lia.
  replace (Z.to_nat (Z.min (Z.max n 0) (Z.of_nat (length l) - 0))) with 0%nat by lia.
  reflexivity.
Qed.

Lemma apply_limit_positive {A} (n : Z) (l : list A) :
  (0 < n)%Z -> apply_limit (Some (Num n)) l = firstn (Z.to_nat n) l.
Proof.
  intros Hn. unfold apply_limit.
  destruct (Z.eqb_spec n 0); [lia|]. cbn [negb]. rewrite splice_front by lia. reflexivity.
Qed.

(** ** The fetchers in closed form *)

Section Fetchers.

Variable env : Env.
Variable options : DeezerOptions.

Lemma getAlbumTracks_eq (id : string) :
  getAlbumTracks env options id =
  ([HttpGet (album_url id)],
   match Axios_get_album env (album_url id) with
   | Throw e => Throw e
   | Normal album =>
       match album_tracks_data album with
       | Throw e => Throw e
       | Normal data =>
           fetched (albumLimit options) (name_or (album_name album) "Untitled album")
                   (collect album_item data)
       end
   end).
Proof.
  unfold getAlbumTracks. fold (album_url id). rewrite bind_perform.
  destruct (Axios_get_album env (album_url id)) as [album|e]; [|reflexivity].
  destruct (album_tracks_data album) as [data|e]; [|reflexivity].
  rewrite bind_lift_normal.
  destruct (js_map_collect album_item data) as [c [Hc Hcol]].
  rewrite Hc, Hcol. destruct c; reflexivity.
Qed.

Lemma getPlaylistTracks_eq (id : string) :
  getPlaylistTracks env options id =
  ([HttpGet (playlist_url id)],
   match Axios_get_playlist env (playlist_url id) with
   | Throw e => Throw e
   | Normal playlist =>
       match playlist_tracks_data playlist with
       | Throw e => Throw e
       | Normal data =>
           fetched (playlistLimit options)
                   (name_or (playlist_name playlist) "Untitled playlist")
                   (collect playlist_item data)
       end
   end).
Proof.
  unfold getPlaylistTracks. fold (playlist_url id). rewrite bind_perform.
  destruct (Axios_get_playlist env (playlist_url id)) as [playlist|e]; [|reflexivity].
  destruct (playlist_tracks_data playlist) as [data|e]; [|reflexivity].
  rewrite bind_lift_normal.
  destruct (js_map_collect playlist_item data) as [c [Hc Hcol]].
  rewrite Hc, Hcol. destruct c; reflexivity.
Qed.

Lemma getTrack_eq (id : string) :
  getTrack env id =
  ([HttpGet (track_url id)],
   match Axios_get_track env (track_url id) with
   | Throw e => Throw e
   | Normal data =>
       match convertToUnresolved data with
       | Normal track => Normal (mkResult [track] None)
       | Throw e => Throw e
       end
   end).
Proof.
  unfold getTrack. fold (track_url id). rewrite bind_perform.
  destruct (Axios_get_track env (track_url id)) as [data|e]; [|reflexivity].
  destruct (convertToUnresolved data); reflexivity.
Qed.

End Fetchers.

(** ** The pattern *)

Lemma substring_prefix (a b : string) : substring 0 (String.length a) (a ++ b) = a.
Proof. induction a as [|ch a IH]; simpl; [destruct b|rewrite IH]; reflexivity. Qed.

Lemma span_spec (cl : charclass) (s : string) :
  s = fst (span cl s) ++ snd (span cl s)
  /\ all_in cl (fst (span cl s)) = true
  /\ starts_in cl (snd (span cl s)) = false.
Proof.
  induction s as [|c s [IH1 [IH2 IH3]]]; cbn [span].
  - repeat split.
  - destruct (in_class cl c) eqn:Hc.
    + destruct (span cl s) as [d rest]. cbn [fst snd] in *.
      cbn [append all_in]. rewrite Hc, IH2. subst s. auto.
    + cbn [fst snd append all_in starts_in]. auto.
Qed.

Lemma span_append (cl : charclass) (d rest : string) :
  all_in cl d = true -> starts_in cl rest = false -> span cl (d ++ rest) = (d, rest).
Proof.
  intros Hd Hrest. induction d as [|c d IH]; cbn [append span all_in] in *.
  - destruct rest as [|c rest]; [reflexivity|].
    cbn [starts_in span] in *. rewrite Hrest. reflexivity.
  - apply andb_prop in Hd. destruct Hd as [Hc Hd]. rewrite Hc, (IH Hd). reflexivity.
Qed.

(** Greedy [cl+] before a continuation that cannot fail takes the whole
    run. *)
Lemma plus_span (cl : charclass) (k : cont) :
  (forall s p c, k s p c <> None) ->
  forall s pos cs,
    plus cl s pos cs k =
    match fst (span cl s) with
    | EmptyString => None
    | d => k (snd (span cl s)) (String.length d + pos)%nat cs
    end.
Proof.
  intros Hk. induction s as [|c s IH]; intros pos cs; cbn [plus span]; [reflexivity|].
  destruct (in_class cl c); [|reflexivity].
  rewrite IH. destruct (span_spec cl s) as [Hs _].
  destruct (span cl s) as [d rest]. cbn [fst snd] in *.
  destruct d as [|c' d]; [subst s; reflexivity|].
  cbn [String.length Nat.add]. rewrite Nat.add_succ_r.
  destruct (k rest (S (S (String.length d + pos))) cs) eqn:Hres; [reflexivity|].
  exfalso. exact (Hk _ _ _ Hres).
Qed.

Lemma lit_spec (l s : string) (pos : nat) (s' : string) (pos' : nat) :
  lit l s pos = Some (s', pos') <-> s = l ++ s' /\ pos' = (String.length l + pos)%nat.
Proof.
  revert s pos. induction l as [|c l IH]; intros s pos; simpl.
  - split; [intros [= -> ->]; split; reflexivity | intros [-> ->]; reflexivity].
  - destruct s as [|c' s].
    + split; [discriminate | intros [H _]; discriminate H].
    + destruct (Ascii.eqb_spec c c') as [->|Hne].
      * rewrite IH, Nat.add_succ_r. split; intros [H1 H2]; split; congruence.
      * split; [discriminate | intros [[= H _] _]; congruence].
Qed.

Section Inversion.

Variables (s : string) (pos : nat) (cs : captures) (k : cont) (x : nat * captures).

Lemma rmatch_seq (r1 r2 : regex) :
  rmatch (Seq r1 r2) s pos cs k
  = rmatch r1 s pos cs (fun s' pos' cs' => rmatch r2 s' pos' cs' k).
Proof. reflexivity. Qed.

Lemma rmatch_group (i : nat) (r : regex) :
  rmatch (Group i r) s pos cs k
  = rmatch r s pos cs (fun s' pos' cs' => k s' pos' ((i, substring 0 (pos' - pos) s) :: cs')).
Proof. reflexivity. Qed.

Lemma rmatch_rep2 (r : regex) :
  rmatch (Rep 2 r) s pos cs k
  = rmatch r s pos cs (fun s' pos' cs' => rmatch r s' pos' cs' k).
Proof. reflexivity. Qed.

Lemma bol_inv : rmatch Bol s pos cs k = Some x -> pos = 0%nat /\ k s 0%nat cs = Some x.
Proof. simpl. destruct pos; [auto | discriminate]. Qed.

Lemma empty_inv : rmatch Empty s pos cs k = Some x -> k s pos cs = Some x.
Proof. auto. Qed.

Lemma lit_inv (l : string) :
  rmatch (Lit l) s pos cs k = Some x ->
  exists s', s = l ++ s' /\ k s' (String.length l + pos)%nat cs = Some x.
Proof.
  simpl. destruct (lit l s pos) as [[s' pos']|] eqn:Hlit; [|discriminate].
  apply lit_spec in Hlit. destruct Hlit as [-> ->]. eauto.
Qed.

Lemma chr_inv (c : ascii) :
  rmatch (Chr c) s pos cs k = Some x ->
  exists s', s = String c s' /\ k s' (S pos) cs = Some x.
Proof.
  simpl. destruct s as [|c' s']; [discriminate|].
  destruct (Ascii.eqb_spec c c') as [->|]; [eauto | discriminate].
Qed.

Lemma class_inv (cl : charclass) :
  rmatch (Class cl) s pos cs k = Some x ->
  exists c s', s = String c s' /\ in_class cl c = true /\ k s' (S pos) cs = Some x.
Proof.
  simpl. destruct s as [|c s']; [discriminate|].
  destruct (in_class cl c) eqn:Hc; [eauto | discriminate].
Qed.

Lemma alt_inv (r1 r2 : regex) :
  rmatch (Alt r1 r2) s pos cs k = Some x ->
  rmatch r1 s pos cs k = Some x \/ rmatch r2 s pos cs k = Some x.
Proof. simpl. destruct (rmatch r1 s pos cs k); [intros [= <-]|]; auto. Qed.

Lemma opt_inv (r : regex) :
  rmatch (Opt r) s pos cs k = Some x ->
  rmatch r s pos cs k = Some x \/ k s pos cs = Some x.
Proof. simpl. destruct (rmatch r s pos cs k); [intros [= <-]|]; auto. Qed.

Lemma plus_inv (cl : charclass) :
  (forall s p c, k s p c <> None) ->
  rmatch (Plus cl) s pos cs k = Some x ->
  exists d rest,
    s = d ++ rest /\ d <> "" /\ all_in cl d = true /\ starts_in cl rest = false
    /\ k rest (String.length d + pos)%nat cs = Some x.
Proof.
  intros Hk. simpl. rewrite (plus_span cl k Hk).
  destruct (span_spec cl s) as [Hs [Hall Hrest]].
  destruct (span cl s) as [d rest]. simpl in *.
  destruct d as [|c d]; [discriminate|]. intros Hx.
  exists (String c d), rest. repeat split; auto. discriminate.
Qed.

End Inversion.

(** Take a successful match apart along the structure of the pattern. *)
Ltac invert H :=
  cbv beta in H;
  lazymatch type of H with
  | rmatch (Seq _ _) _ _ _ _ = Some _ => rewrite rmatch_seq in H; invert H
  | rmatch (Group _ _) _ _ _ _ = Some _ => rewrite rmatch_group in H; invert H
  | rmatch (Rep 2 _) _ _ _ _ = Some _ => rewrite rmatch_rep2 in H; invert H
  | rmatch Empty _ _ _ _ = Some _ => apply empty_inv in H; invert H
  | rmatch (Lit _) _ _ _ _ = Some _ =>
      apply lit_inv in H; destruct H as [? [-> H]]; invert H
  | rmatch (Chr _) _ _ _ _ = Some _ =>
      apply chr_inv in H; destruct H as [? [-> H]]; invert H
  | rmatch (Class _) _ _ _ _ = Some _ =>
      apply class_inv in H; destruct H as [? [? [-> [? H]]]]; invert H
  | rmatch (Opt _) _ _ _ _ = Some _ =>
      apply opt_inv in H; destruct H as [H|H]; invert H
  | rmatch (Alt _ _) _ _ _ _ = Some _ =>
      apply alt_inv in H; destruct H as [H|H]; invert H
  | _ => idtac
  end.

Lemma REGEX_parts :
  REGEX = Seq Bol (Seq scheme_part (Seq www_part (Seq host_part
            (Seq locale_part (Seq kind_part (Seq (Chr "/") id_part)))))).
Proof. reflexivity. Qed.

Section Parts.

Variables (s : string) (pos : nat) (cs : captures) (k : cont) (x : nat * captures).

Lemma scheme_inv :
  rmatch scheme_part s pos cs k = Some x ->
  exists scheme s',
    In scheme [""; "http://"; "https://"] /\ s = scheme ++ s'
    /\ k s' (String.length scheme + pos)%nat cs = Some x.
Proof.
  unfold scheme_part. intros H. invert H.
  - exists "https://". eexists. split; [simpl; auto|]. split; [reflexivity|]. exact H.
  - exists "http://". eexists. split; [simpl; auto|]. split; [reflexivity|]. exact H.
  - exists "", s. split; [simpl; auto|]. split; [reflexivity|]. exact H.
  - exists "", s. split; [simpl; auto|]. split; [reflexivity|]. exact H.
Qed.

Lemma www_inv :
  rmatch www_part s pos cs k = Some x ->
  exists www s',
    In www [""; "www."] /\ s = www ++ s'
    /\ k s' (String.length www + pos)%nat cs = Some x.
Proof.
  unfold www_part. intros H. invert H.
  - exists "www.". eexists. split; [simpl; auto|]. split; [reflexivity|]. exact H.
  - exists "", s. split; [simpl; auto|]. split; [reflexivity|]. exact H.
Qed.

Lemma locale_inv :
  rmatch locale_part s pos cs k = Some x ->
  exists locale s',
    locale_segment locale /\ s = locale ++ s'
    /\ k s' (String.length locale + pos)%nat cs = Some x.
Proof.
  unfold locale_part. intros H. invert H.
  - match goal with
    | Ha : in_class Word ?a = true, Hb : in_class Word ?b = true |- _ =>
        exists (String a (String b "/")); eexists; split;
        [right; exists a, b; auto | split; [reflexivity | exact H]]
    end.
  - exists "", s. split; [left; reflexivity|]. split; [reflexivity|]. exact H.
Qed.

Lemma kind_inv :
  rmatch kind_part s pos cs k = Some x ->
  exists kind s',
    In kind kinds /\ s = kind ++ s'
    /\ k s' (String.length kind + pos)%nat ((1%nat, kind) :: cs) = Some x.
Proof.
  unfold kind_part, kinds. intros H. invert H;
    rewrite Nat.add_sub, substring_prefix in H.
  - exists "track". eexists. split; [simpl; auto|]. split; [reflexivity|]. exact H.
  - exists "album". eexists. split; [simpl; auto|]. split; [reflexivity|]. exact H.
  - exists "playlist". eexists. split; [simpl; auto|]. split; [reflexivity|]. exact H.
Qed.

Lemma id_inv :
  (forall s p c, k s p c <> None) ->
  rmatch id_part s pos cs k = Some x ->
  exists id rest,
    s = id ++ rest /\ id <> "" /\ all_in Digit id = true /\ starts_in Digit rest = false
    /\ k rest (String.length id + pos)%nat ((2%nat, id) :: cs) = Some x.
Proof.
  unfold id_part. intros Hk H. rewrite rmatch_group in H.
  apply plus_inv in H; [|intros s0 p c; apply Hk].
  destruct H as (id & rest & -> & Hid & Hall & Hrest & H).
  rewrite Nat.add_sub, substring_prefix in H.
  exists id, rest. auto.
Qed.

End Parts.

(** What a successful attempt at index 0 says about the input. *)
Lemma attempt_sound (s : string) (e : nat) (cs : captures) :
  attempt REGEX s 0 = Some (e, cs) ->
  exists kind id,
    cs = [(2%nat, id); (1%nat, kind)] /\ catalog_url kind id s.
Proof.
  unfold attempt. rewrite REGEX_parts. intros H.
  rewrite rmatch_seq in H. apply bol_inv in H. destruct H as [_ H]. cbv beta in H.
  rewrite rmatch_seq in H. apply scheme_inv in H.
  destruct H as (scheme & s1 & Hscheme & -> & H). cbv beta in H.
  rewrite rmatch_seq in H. apply www_inv in H.
  destruct H as (www & s2 & Hwww & -> & H). cbv beta in H.
  rewrite rmatch_seq in H. apply lit_inv in H.
  destruct H as (s3 & -> & H). cbv beta in H.
  rewrite rmatch_seq in H. apply locale_inv in H.
  destruct H as (locale & s4 & Hlocale & -> & H). cbv beta in H.
  rewrite rmatch_seq in H. apply kind_inv in H.
  destruct H as (kind & s5 & Hkind & -> & H). cbv beta in H.
  rewrite rmatch_seq in H. apply chr_inv in H.
  destruct H as (s6 & -> & H). cbv beta in H.
  apply id_inv in H; [|intros; discriminate].
  destruct H as (id & rest & -> & Hid & Hall & Hrest & H).
  injection H as _ <-.
  exists kind, id. split; [reflexivity|].
  apply (CatalogUrl kind id scheme www locale rest); assumption.
Qed.

Lemma scan_after_start (whole s : string) (p : nat) : scan REGEX 2 whole s (S p) = None.
Proof.
  revert p. induction s as [|c s IH]; intros p; cbn [scan].
  - reflexivity.
  - change (attempt REGEX (String c s) (S p)) with (@None (nat * captures)).
    apply IH.
Qed.

Lemma js_match_REGEX (s : string) :
  js_match REGEX 2 s =
  match attempt REGEX s 0 with
  | Some (e, cs) => Some [Some (substring 0 (e - 0) s); capture 1 cs; capture 2 cs]
  | None => None
  end.
Proof.
  unfold js_match. destruct s as [|c s]; cbn [scan].
  - destruct (attempt REGEX "" 0) as [[e cs]|]; reflexivity.
  - destruct (attempt REGEX (String c s) 0) as [[e cs]|]; [reflexivity|].
    apply scan_after_start.
Qed.

(** Run the matcher on the literal part of an input: evaluate the class of
    the characters that are known, and step through what is decided. *)
Ltac eval_word :=
  repeat match goal with
         | |- context [is_word (Ascii ?a ?b ?c ?d ?e ?f ?g ?h)] =>
             let v := eval vm_compute in (is_word (Ascii a b c d e f g h)) in
             change (is_word (Ascii a b c d e f g h)) with v
         end.

Ltac run :=
  cbn [rmatch lit append Ascii.eqb Bool.eqb Nat.eqb in_class andb]; eval_word; cbv iota.

Lemma attempt_complete (kind id s : string) :
  catalog_url kind id s ->
  exists e, attempt REGEX s 0 = Some (e, [(2%nat, id); (1%nat, kind)]).
Proof.
  intros [scheme www locale rest Hscheme Hwww Hlocale Hkind Hid Hall Hrest].
  unfold attempt, REGEX.
  assert (Hplus : forall pos cs (k : cont),
             (forall s p c, k s p c <> None) ->
             plus Digit (id ++ rest) pos cs k = k rest (String.length id + pos)%nat cs).
  { intros pos cs k Hk. rewrite (plus_span Digit k Hk), (span_append Digit id rest Hall Hrest).
    cbn [fst snd]. destruct id; [contradiction|reflexivity]. }
  cbn [In] in Hscheme, Hwww. unfold kinds in Hkind. cbn [In] in Hkind.
  destruct Hscheme as [<-|[<-|[<-|[]]]];
    destruct Hwww as [<-|[<-|[]]];
    destruct Hkind as [<-|[<-|[<-|[]]]];
    (destruct Hlocale as [-> | (a & b & Ha & Hb & ->)]);
    run.
  all: try rewrite Ha. all: try rewrite Hb. all: run.
  all: rewrite Hplus by (intros; discriminate).
  all: rewrite Nat.add_sub, substring_prefix.
  all: eexists; reflexivity.
Qed.

(** What the classifier extracts from a string, as a function of the result
    of the match. *)
Lemma classify_string (s : string) :
  classify (finalQuery (QString s)) =
  Normal (match attempt REGEX s 0 with
          | Some (_, cs) => (capture 1 cs, capture 2 cs)
          | None => (None, None)
          end).
Proof.
  cbn [finalQuery classify]. rewrite js_match_REGEX.
  destruct (attempt REGEX s 0) as [[e cs]|]; reflexivity.
Qed.

Lemma classify_catalog_url (s kind id : string) :
  classify (finalQuery (QString s)) = Normal (Some kind, Some id) <-> catalog_url kind id s.
Proof.
  rewrite classify_string. split.
  - destruct (attempt REGEX s 0) as [[e cs]|] eqn:Hattempt; [|discriminate].
    destruct (attempt_sound s e cs Hattempt) as (kind' & id' & -> & Hurl).
    cbn. intros [= <- <-]. assumption.
  - intros Hurl. destruct (attempt_complete kind id s Hurl) as [e ->]. reflexivity.
Qed.

Lemma classify_not_catalog_url (s : string) :
  (forall kind id, ~ catalog_url kind id s) <->
  classify (finalQuery (QString s)) = Normal (None, None).
Proof.
  split.
  - intros Hnone. rewrite classify_string.
    destruct (attempt REGEX s 0) as [[e cs]|] eqn:Hattempt; [|reflexivity].
    destruct (attempt_sound s e cs Hattempt) as (kind & id & _ & Hurl).
    destruct (Hnone kind id Hurl).
  - intros Hclass kind id Hurl. apply classify_catalog_url in Hurl. congruence.
Qed.

(** C8. The classifier is total on strings: it never throws, and it yields a
    kind and an id exactly for the strings of the catalog URL shape and
    nothing for every other string.  In particular the fully qualified form
    (scheme, [www.], two-letter locale segment) and the bare-host form of
    the same kind and id classify to the same pair. *)
Theorem classifier_accepts_catalog_urls :
  (forall s, exists captured, classify (finalQuery (QString s)) = Normal captured)
  /\ (forall s kind id,
         classify (finalQuery (QString s)) = Normal (Some kind, Some id)
         <-> catalog_url kind id s)
  /\ (forall s,
         (forall kind id, ~ catalog_url kind id s) <->
         classify (finalQuery (QString s)) = Normal (None, None))
  /\ (forall kind id rest a b,
         In kind kinds ->
         id <> "" ->
         all_in Digit id = true ->
         starts_in Digit rest = false ->
         is_word a = true ->
         is_word b = true ->
         classify (finalQuery
                     (QString ("https://www.deezer.com/" ++ String a (String b "/")
                                 ++ kind ++ "/" ++ id ++ rest)))
         = Normal (Some kind, Some id)
         /\ classify (finalQuery (QString ("deezer.com/" ++ kind ++ "/" ++ id ++ rest)))
            = Normal (Some kind, Some id)).
Proof.
  split; [|split; [|split]].
  - intros s. rewrite classify_string. eexists. reflexivity.
  - intros s kind id. apply classify_catalog_url.
  - intros s. apply classify_not_catalog_url.
  - intros kind id rest a b Hkind Hid Hall Hrest Ha Hb. split; apply classify_catalog_url.
    + apply (CatalogUrl kind id "https://" "www." (String a (String b "/")) rest);
        try assumption; [simpl; auto | simpl; auto | right; exists a, b; auto].
    + apply (CatalogUrl kind id "" "" "" rest);
        try assumption; [simpl; auto | simpl; auto | left; reflexivity].
Qed.

(** The two forms of the specification's example, and some of the strings
    that are not catalog URLs. *)
Lemma classifier_examples :
  (classify (finalQuery (QString "https://www.deezer.com/fr/playlist/123456"))
   = Normal (Some "playlist", Some "123456")
   /\ classify (finalQuery (QString "deezer.com/playlist/123456"))
      = Normal (Some "playlist", Some "123456"))
  /\ classify (finalQuery (QString "deezer.com/album/7")) = Normal (Some "album", Some "7")
  /\ classify (finalQuery (QString "one more time daft punk")) = Normal (None, None)
  /\ classify (finalQuery (QString "https://www.deezer.com/fr/artist/27")) = Normal (None, None)
  /\ classify (finalQuery (QString "see https://www.deezer.com/track/3135556"))
     = Normal (None, None)
  /\ classify (finalQuery (QString "")) = Normal (None, None).
Proof.
  split; [|repeat split].
  exact (proj2 (proj2 (proj2 classifier_accepts_catalog_urls))
               "playlist" "123456" "" "f"%char "r"%char
               (or_intror (or_intror (or_introl eq_refl)))
               (fun H : "123456" = "" => eq_ind "123456"
                          (fun s => match s with EmptyString => False | String _ _ => True end)
                          I "" H)
               eq_refl eq_refl eq_refl eq_refl).
Defined.


(** ** Limits *)

(** C6. With a positive album limit [N], the album fetcher performs its one
    request and returns the first [min N length] descriptors of the
    normalized sequence, in catalog order: the result is a prefix of that
    sequence, whatever its length. *)
Theorem album_limit_is_prefix_truncation :
  forall env options id N album data normalized,
    albumLimit options = Some (Num N) ->
    (0 < N)%Z ->
    Axios_get_album env (album_url id) = Normal album ->
    album_tracks_data album = Normal data ->
    collect album_item data = Normal normalized ->
    exists r,
      getAlbumTracks env options id = ([HttpGet (album_url id)], Normal r)
      /\ res_tracks r = firstn (Z.to_nat N) normalized
      /\ length (res_tracks r) = Nat.min (Z.to_nat N) (length normalized)
      /\ exists dropped, normalized = (res_tracks r ++ dropped)%list.
Proof.
  intros env options id N album data normalized Hlimit HN Hget Hdata Hnorm.
  rewrite getAlbumTracks_eq, Hget, Hdata, Hnorm, Hlimit. unfold fetched.
  rewrite apply_limit_positive by assumption.
  eexists. split; [reflexivity|]. cbn [res_tracks].
  split; [reflexivity|]. split.
  - apply length_firstn.
  - exists (skipn (Z.to_nat N) normalized). symmetry. apply firstn_skipn.
Qed.

(** With [albumLimit = 2] and five valid tracks, exactly the first two are
    returned. *)
Lemma album_limit_two_of_five :
  exists r,
    getAlbumTracks (Sample.env None Sample.album Sample.playlist_with_gap Sample.resolve_ok)
                   (Sample.options (Some (Num 2)) None) "302127"
    = ([HttpGet (album_url "302127")], Normal r)
    /\ res_tracks r = [Sample.descriptor "One More Time" 320;
                       Sample.descriptor "Aerodynamic" 212]
    /\ length (res_tracks r) = 2%nat
    /\ exists dropped, Sample.five_normalized = (res_tracks r ++ dropped)%list.
Proof.
  apply (album_limit_is_prefix_truncation
           (Sample.env None Sample.album Sample.playlist_with_gap Sample.resolve_ok)
           (Sample.options (Some (Num 2)) None) "302127" 2
           Sample.album Sample.five Sample.five_normalized);
    [reflexivity | lia | reflexivity | reflexivity | reflexivity].
Defined.

(** C10. A limit of 0, like an absent limit, is no limit: the album and the
    playlist fetcher return the whole normalized sequence. *)
Theorem zero_limit_means_no_limit :
  forall env options id,
    (forall album data normalized,
        albumLimit options = Some (Num 0) \/ albumLimit options = None ->
        Axios_get_album env (album_url id) = Normal album ->
        album_tracks_data album = Normal data ->
        collect album_item data = Normal normalized ->
        exists r,
          getAlbumTracks env options id = ([HttpGet (album_url id)], Normal r)
          /\ res_tracks r = normalized)
    /\
    (forall playlist data normalized,
        playlistLimit options = Some (Num 0) \/ playlistLimit options = None ->
        Axios_get_playlist env (playlist_url id) = Normal playlist ->
        playlist_tracks_data playlist = Normal data ->
        collect playlist_item data = Normal normalized ->
        exists r,
          getPlaylistTracks env options id = ([HttpGet (playlist_url id)], Normal r)
          /\ res_tracks r = normalized).
Proof.
  intros env options id. split.
  - intros album data normalized Hlimit Hget Hdata Hnorm.
    rewrite getAlbumTracks_eq, Hget, Hdata, Hnorm. unfold fetched.
    eexists. split; [reflexivity|].
    destruct Hlimit as [-> | ->]; reflexivity.
  - intros playlist data normalized Hlimit Hget Hdata Hnorm.
    rewrite getPlaylistTracks_eq, Hget, Hdata, Hnorm. unfold fetched.
    eexists. split; [reflexivity|].
    destruct Hlimit as [-> | ->]; reflexivity.
Qed.

Lemma zero_limit_keeps_all_five :
  (exists r,
      getAlbumTracks (Sample.env None Sample.album Sample.playlist_with_gap Sample.resolve_ok)
                     (Sample.options (Some (Num 0)) None) "302127"
      = ([HttpGet (album_url "302127")], Normal r)
      /\ res_tracks r = Sample.five_normalized)
  /\
  (exists r,
      getPlaylistTracks (Sample.env None Sample.album Sample.playlist_with_gap Sample.resolve_ok)
                        (Sample.options None None) "908622995"
      = ([HttpGet (playlist_url "908622995")], Normal r)
      /\ res_tracks r = Sample.five_normalized).
Proof.
  split.
  - apply (proj1 (zero_limit_means_no_limit
                    (Sample.env None Sample.album Sample.playlist_with_gap Sample.resolve_ok)
                    (Sample.options (Some (Num 0)) None) "302127")
                 Sample.album Sample.five Sample.five_normalized);
      [left; reflexivity | reflexivity | reflexivity | reflexivity].
  - apply (proj2 (zero_limit_means_no_limit
                    (Sample.env None Sample.album Sample.playlist_with_gap Sample.resolve_ok)
                    (Sample.options None None) "908622995")
                 Sample.playlist_with_gap
                 (map (fun t => Some {| pi_track := t |})
                      (firstn 2 Sample.five ++ Some Sample.untitled :: skipn 2 Sample.five)%list)
                 Sample.five_normalized);
      [right; reflexivity | reflexivity | reflexivity | reflexivity].
Defined.

(** ** The normalizer and records without a title *)

(** The normalizer throws exactly on a missing record, a missing artist, a
    falsy title, or a title that is not a string. *)
Lemma convertToUnresolved_throws (raw : option DeezerTrack) :
  (exists e, convertToUnresolved raw = Throw e) <->
  (raw = None
   \/ exists t, raw = Some t
                /\ (dt_artist t = None
                    \/ truthy (dt_title t) = false
                    \/ typeof (dt_title t) <> "string")).
Proof.
  unfold convertToUnresolved. split.
  - intros [e He]. destruct raw as [t|]; [right; exists t; split; [reflexivity|] | left; reflexivity].
    destruct (dt_artist t); [|left; reflexivity]. right.
    destruct (truthy (dt_title t)); [|left; reflexivity]. right.
    destruct (dt_title t); simpl in *; try discriminate.
  - intros [-> | [t [-> H]]]; [eexists; reflexivity|].
    destruct (dt_artist t) as [a|]; [|eexists; reflexivity].
    destruct (truthy (dt_title t)) eqn:Htruthy; [|eexists; reflexivity].
    destruct H as [H | [H | H]]; try discriminate H.
    destruct (dt_title t); simpl in *; try (eexists; reflexivity).
    contradiction H. reflexivity.
Qed.

Lemma album_item_untitled (t : DeezerTrack) :
  truthy (dt_title t) = false -> album_item (Some t) = Normal None.
Proof. intros H. unfold album_item. rewrite H. reflexivity. Qed.

Lemma playlist_item_untitled (t : DeezerTrack) :
  truthy (dt_title t) = false ->
  playlist_item (Some {| pi_track := Some t |}) = Normal None.
Proof. intros H. unfold playlist_item. cbn [pi_track]. rewrite H. reflexivity. Qed.

(** C7. A raw record that has an artist but no title (a title that was
    [not_provided]) is treated per call path.  In the album and in the
    playlist fetcher it is left out, and the fetch goes on exactly as if the
    record were not in the payload; in the single-track fetcher the fetch
    fails with the error the normalizer raises for a missing title.  The
    normalizer itself fails exactly when the record is missing, the artist
    is missing, the title is missing, or the title is not a string. *)
Theorem missing_title_per_call_path :
  (forall env options id album before t after,
      dt_artist t <> None ->
      not_provided (dt_title t) ->
      Axios_get_album env (album_url id) = Normal album ->
      album_tracks_data album = Normal (before ++ Some t :: after)%list ->
      getAlbumTracks env options id =
      ([HttpGet (album_url id)],
       fetched (albumLimit options) (name_or (album_name album) "Untitled album")
               (collect album_item (before ++ after))))
  /\
  (forall env options id playlist before t after,
      dt_artist t <> None ->
      not_provided (dt_title t) ->
      Axios_get_playlist env (playlist_url id) = Normal playlist ->
      playlist_tracks_data playlist
      = Normal (before ++ Some {| pi_track := Some t |} :: after)%list ->
      getPlaylistTracks env options id =
      ([HttpGet (playlist_url id)],
       fetched (playlistLimit options) (name_or (playlist_name playlist) "Untitled playlist")
               (collect playlist_item (before ++ after))))
  /\
  (forall env id t,
      dt_artist t <> None ->
      not_provided (dt_title t) ->
      Axios_get_track env (track_url id) = Normal (Some t) ->
      convertToUnresolved (Some t)
      = Throw (new_error ReferenceError "The track title was not provided")
      /\ getTrack env id
         = ([HttpGet (track_url id)],
            Throw (new_error ReferenceError "The track title was not provided")))
  /\
  (forall raw,
      (exists e, convertToUnresolved raw = Throw e) <->
      (raw = None
       \/ exists t, raw = Some t
                    /\ (dt_artist t = None
                        \/ not_provided (dt_title t)
                        \/ typeof (dt_title t) <> "string"))).
Proof.
  split; [|split; [|split]].
  - intros env options id album before t after _ Htitle Hget Hdata.
    rewrite getAlbumTracks_eq, Hget, Hdata.
    rewrite (collect_skip album_item before after (Some t))
      by (apply album_item_untitled; assumption).
    reflexivity.
  - intros env options id playlist before t after _ Htitle Hget Hdata.
    rewrite getPlaylistTracks_eq, Hget, Hdata.
    rewrite (collect_skip playlist_item before after (Some {| pi_track := Some t |}))
      by (apply playlist_item_untitled; assumption).
    reflexivity.
  - intros env id t Hartist Htitle Hget.
    assert (Hconv : convertToUnresolved (Some t)
                    = Throw (new_error ReferenceError "The track title was not provided")).
    { unfold convertToUnresolved. destruct (dt_artist t); [|contradiction].
      rewrite Htitle. reflexivity. }
    split; [exact Hconv|].
    rewrite getTrack_eq, Hget, Hconv. reflexivity.
  - apply convertToUnresolved_throws.
Qed.

(** The title-less record of the sample payloads is dropped from the album
    and from the playlist, and fails the single-track fetch. *)
Lemma missing_title_sample :
  getAlbumTracks
    (Sample.env (Some Sample.untitled) Sample.album_with_gap Sample.playlist_with_gap
                Sample.resolve_ok)
    (Sample.options None None) "302127"
  = ([HttpGet (album_url "302127")],
     Normal (mkResult Sample.five_normalized (Some "Discovery")))
  /\
  getPlaylistTracks
    (Sample.env (Some Sample.untitled) Sample.album_with_gap Sample.playlist_with_gap
                Sample.resolve_ok)
    (Sample.options None None) "908622995"
  = ([HttpGet (playlist_url "908622995")],
     Normal (mkResult Sample.five_normalized (Some "Favourites")))
  /\
  getTrack
    (Sample.env (Some Sample.untitled) Sample.album_with_gap Sample.playlist_with_gap
                Sample.resolve_ok) "3135556"
  = ([HttpGet (track_url "3135556")],
     Throw (new_error ReferenceError "The track title was not provided")).
Proof.
  pose (w := Sample.env (Some Sample.untitled) Sample.album_with_gap
                        Sample.playlist_with_gap Sample.resolve_ok).
  pose (some_artist := fun H : Some Sample.artist = None =>
                         eq_ind (Some Sample.artist)
                                (fun o => match o with Some _ => True | None => False end)
                                I None H).
  split; [|split].
  - exact (proj1 missing_title_per_call_path w (Sample.options None None) "302127"
                 Sample.album_with_gap (firstn 2 Sample.five) Sample.untitled
                 (skipn 2 Sample.five) some_artist eq_refl eq_refl eq_refl).
  - exact (proj1 (proj2 missing_title_per_call_path) w (Sample.options None None)
                 "908622995" Sample.playlist_with_gap
                 (map (fun t => Some {| pi_track := t |}) (firstn 2 Sample.five))
                 Sample.untitled
                 (map (fun t => Some {| pi_track := t |}) (skipn 2 Sample.five))
                 some_artist eq_refl eq_refl eq_refl).
  - exact (proj2 (proj1 (proj2 (proj2 missing_title_per_call_path)) w "3135556"
                        Sample.untitled some_artist eq_refl eq_refl)).
Defined.

(** ** The result builder *)

Lemma fold_left_add_shift {A} (f : A -> Z) (l : list A) (a : Z) :
  fold_left (fun acc x => (acc + f x)%Z) l a
  = (a + fold_right Z.add 0%Z (map f l))%Z.
Proof.
  revert a. induction l as [|x l IH]; intros a; simpl.
  - lia.
  - rewrite IH. lia.
Qed.

Lemma total_duration_sum (tracks : list UnresolvedTrack) :
  total_duration tracks = sum_durations tracks.
Proof.
  unfold total_duration.
  rewrite (fold_left_add_shift (fun t => or_zero (ut_duration t))).
  induction tracks as [|t tracks IH]; [reflexivity|].
  cbn [map fold_right sum_durations].
  destruct (ut_duration t); cbn [or_zero]; lia.
Qed.

Lemma sum_magnitudes_nonneg (tracks : list UnresolvedTrack) :
  (0 <= sum_magnitudes tracks)%Z.
Proof.
  induction tracks as [|t tracks IH]; cbn [sum_magnitudes]; [lia|].
  destruct (ut_duration t); lia.
Qed.

Lemma sum_durations_bound (tracks : list UnresolvedTrack) :
  (Z.abs (sum_durations tracks) <= sum_magnitudes tracks)%Z.
Proof.
  induction tracks as [|t tracks IH]; cbn [sum_durations sum_magnitudes]; [lia|].
  destruct (ut_duration t); lia.
Qed.

Lemma sum_magnitudes_firstn (k : nat) (tracks : list UnresolvedTrack) :
  (sum_magnitudes (firstn k tracks) <= sum_magnitudes tracks)%Z.
Proof.
  revert k. induction tracks as [|t tracks IH]; intros [|k];
    cbn [firstn sum_magnitudes]; try lia.
  - pose proof (sum_magnitudes_nonneg tracks). destruct (ut_duration t); lia.
  - specialize (IH k). destruct (ut_duration t); lia.
Qed.

(** Every value the accumulator of the reduce takes is a safe integer when
    the magnitudes of the durations add up to one. *)
Lemma accumulator_safe (tracks : list UnresolvedTrack) :
  (sum_magnitudes tracks <= MAX_SAFE_INTEGER)%Z ->
  forall k, safe_integer (total_duration (firstn k tracks)).
Proof.
  intros Hsafe k. rewrite total_duration_sum. unfold safe_integer.
  pose proof (sum_durations_bound (firstn k tracks)).
  pose proof (sum_magnitudes_firstn k tracks). lia.
Qed.

(** So is every duration that is added. *)
Lemma addend_safe (tracks : list UnresolvedTrack) :
  (sum_magnitudes tracks <= MAX_SAFE_INTEGER)%Z ->
  forall t ms, In t tracks -> ut_duration t = Num ms -> safe_integer ms.
Proof.
  intros Hsafe t ms Hin Hms. unfold safe_integer.
  induction tracks as [|t' tracks IH]; [destruct Hin|].
  cbn [sum_magnitudes] in Hsafe. pose proof (sum_magnitudes_nonneg tracks).
  destruct Hin as [-> | Hin].
  - rewrite Hms in Hsafe. lia.
  - apply IH; [|assumption]. destruct (ut_duration t'); lia.
Qed.

(** C9. [buildSearch] is partial: with null tracks and a non-empty playlist
    name it throws a [TypeError], because the duration is summed over the
    argument and not over the defaulted empty list.  With no name (or an
    empty one) the same null tracks give an outcome with no tracks, and an
    explicit empty list with the same name gives the outcome with a summary
    of duration 0 that the default would have produced. *)
Theorem buildSearch_null_tracks_with_name_throws :
  forall loadType error name,
    str_truthy name = true ->
    (exists e, buildSearch loadType None error (Some name) = Throw e
               /\ err_kind e = TypeError)
    /\ (forall name', opt_truthy name' = false ->
          exists r, buildSearch loadType None error name' = Normal r
                    /\ sr_tracks r = [] /\ sr_playlist r = None)
    /\ (exists r, buildSearch loadType (Some []) error (Some name) = Normal r
                  /\ sr_tracks r = []
                  /\ sr_playlist r = Some (mkPlaylistInfo name 0)).
Proof.
  intros loadType error name Hname. unfold buildSearch. rewrite Hname.
  split; [|split].
  - eexists. split; reflexivity.
  - intros [n|] Hn; simpl in Hn; [rewrite Hn|]; eexists; repeat split.
  - eexists. repeat split.
Qed.

Lemma buildSearch_null_tracks_sample :
  (exists e, buildSearch "PLAYLIST_LOADED" None None (Some "Discovery") = Throw e
             /\ err_kind e = TypeError)
  /\ (forall name', opt_truthy name' = false ->
        exists r, buildSearch "PLAYLIST_LOADED" None None name' = Normal r
                  /\ sr_tracks r = [] /\ sr_playlist r = None)
  /\ (exists r, buildSearch "PLAYLIST_LOADED" (Some []) None (Some "Discovery") = Normal r
                /\ sr_tracks r = []
                /\ sr_playlist r = Some (mkPlaylistInfo "Discovery" 0)).
Proof.
  exact (buildSearch_null_tracks_with_name_throws "PLAYLIST_LOADED" None "Discovery" eq_refl).
Defined.

(** ** The interceptor in closed form *)

Lemma name_or_truthy (name : option string) (placeholder : string) :
  str_truthy placeholder = true -> str_truthy (name_or name placeholder) = true.
Proof.
  intros H. unfold name_or. destruct name as [n|]; [|assumption].
  destruct (str_truthy n) eqn:Hn; assumption.
Qed.

Section Interceptor.

Variable env : Env.
Variable options : DeezerOptions.
Variable requester : jsval.

Lemma build_track_eq (q : UnresolvedQuery) :
  build_track env options requester q =
  if flag (convertUnresolved options)
  then ([ResolveTrack (buildUnresolved q requester)], Normal (resolution env requester q))
  else ([], Normal (Some (buildUnresolved q requester))).
Proof.
  unfold build_track, resolution. destruct (flag (convertUnresolved options)); [|reflexivity].
  rewrite bind_perform. destruct (resolve env (buildUnresolved q requester)); reflexivity.
Qed.

Lemma js_map_build_track (qs : list UnresolvedQuery) :
  exists built,
    js_map (build_track env options requester) qs
    = (resolutions options requester qs, Normal built)
    /\ filter_non_null built = survivors env options requester qs
    /\ length built = length qs.
Proof.
  unfold resolutions, survivors.
  induction qs as [|q qs [built [Hmap [Hfilter Hlen]]]].
  - exists []. destruct (flag (convertUnresolved options)); repeat split.
  - cbn [js_map]. rewrite build_track_eq, Hmap.
    destruct (flag (convertUnresolved options)).
    + exists (resolution env requester q :: built). cbn [map flat_map filter_non_null length].
      rewrite <- Hfilter, Hlen. split; [|split; [|reflexivity]].
      * unfold bind, ret. rewrite app_nil_r. reflexivity.
      * destruct (resolution env requester q); reflexivity.
    + exists (Some (buildUnresolved q requester) :: built). cbn [map filter_non_null length].
      rewrite <- Hfilter, Hlen. repeat split.
Qed.

Lemma functions_kind (kind : string) (func : string -> M Result) :
  get_property kind (functions env options) = Some func ->
  (kind = "track" /\ func = getTrack env)
  \/ (kind = "album" /\ func = getAlbumTracks env options)
  \/ (kind = "playlist" /\ func = getPlaylistTracks env options).
Proof.
  unfold functions. cbn [get_property].
  destruct (String.eqb_spec kind "track") as [->|_];
    [intros [= <-]; left; split; reflexivity|].
  destruct (String.eqb_spec kind "album") as [->|_];
    [intros [= <-]; right; left; split; reflexivity|].
  destruct (String.eqb_spec kind "playlist") as [->|_];
    [intros [= <-]; right; right; split; reflexivity|].
  discriminate.
Qed.

Lemma buildSearch_loaded (kind : string) (name : option string)
      (tracks : list UnresolvedTrack) :
  buildSearch (load_type kind) (Some tracks) None
              (if is_container kind then Some (name_or name "Untitled") else None)
  = Normal (loaded kind name tracks).
Proof.
  unfold buildSearch, loaded. destruct (is_container kind); [|reflexivity].
  rewrite name_or_truthy by reflexivity. reflexivity.
Qed.

Lemma buildSearch_failed (e : jsError) :
  buildSearch (coalesce (err_loadType e) "LOAD_FAILED") None (err_message e) None
  = Normal (failed e).
Proof. reflexivity. Qed.

(** A query whose text is a catalog URL of a known kind: the fetcher runs
    inside the [try], and what it throws is turned into an outcome. *)
Lemma search_matched (query : Query) (kind id : string) (func : string -> M Result) :
  classify (finalQuery query) = Normal (Some kind, Some id) ->
  get_property kind (functions env options) = Some func ->
  search env options query requester =
  match func id with
  | (t, Normal data) =>
      ((t ++ resolutions options requester (res_tracks data))%list,
       Normal (loaded kind (res_name data)
                      (survivors env options requester (res_tracks data))))
  | (t, Throw e) => (t, Normal (failed e))
  end.
Proof.
  intros Hclass Hfunc. unfold search. rewrite Hclass, bind_lift_normal.
  unfold js_in. cbn [to_string]. rewrite Hfunc.
  destruct (func id) as [t [data|e]] eqn:Hcall.
  - destruct (js_map_build_track (res_tracks data)) as [built [Hmap [Hfilter _]]].
    unfold bind at 1. rewrite Hmap.
    unfold bind, lift, try_catch. rewrite Hfilter.
    change (type_is (Some kind) "track") with (String.eqb kind "track").
    change (type_is (Some kind) "playlist" || type_is (Some kind) "album")
      with (is_container kind).
    fold (load_type kind). rewrite buildSearch_loaded.
    rewrite app_nil_r. reflexivity.
  - unfold bind, try_catch. rewrite buildSearch_failed. unfold lift.
    rewrite app_nil_r. reflexivity.
Qed.

(** A query whose text does not match the pattern goes to the host. *)
Lemma search_unmatched (query : Query) (id : option string) :
  classify (finalQuery query) = Normal (None, id) ->
  search env options query requester =
  ([HostSearch query requester], _search env query requester).
Proof.
  intros Hclass. unfold search. rewrite Hclass, bind_lift_normal. reflexivity.
Qed.

End Interceptor.

(** ** Delegation to the host *)

(** A plain string, or a structured query with non-empty text, that does not
    match the pattern is handed to the host's search as it came, and the
    host's completion is returned as it is; nothing is fetched. *)
Lemma search_delegates :
  forall env options query requester text,
    finalQuery query = FQString text ->
    js_match REGEX 2 text = None ->
    search env options query requester
    = ([HostSearch query requester], _search env query requester).
Proof.
  intros env options query requester text Hfinal Hmatch.
  apply (search_unmatched env options requester query None).
  rewrite Hfinal. unfold classify. rewrite Hmatch. reflexivity.
Qed.

Lemma search_delegates_plain_text :
  search (Sample.env None Sample.album Sample.playlist_with_gap Sample.resolve_ok)
         (Sample.options None None) (QString "one more time daft punk") JNull
  = ([HostSearch (QString "one more time daft punk") JNull], Normal Sample.host_result).
Proof.
  apply (search_delegates
           (Sample.env None Sample.album Sample.playlist_with_gap Sample.resolve_ok)
           (Sample.options None None) (QString "one more time daft punk") JNull
           "one more time daft punk"); reflexivity.
Defined.

(** C1, at the input where the code departs from it.  A structured query
    whose text is empty does not match the pattern, yet it is not delegated:
    [query.query || query] falls through to the query object, which has no
    [match] method, so the call throws before the host's search is reached. *)
Theorem search_structured_empty_text_throws :
  forall env options source requester,
    js_match REGEX 2 (sq_query (mkSearchQuery source "")) = None
    /\ search env options (QObject (mkSearchQuery source "")) requester
       = ([], Throw (new_error TypeError "finalQuery.match is not a function"))
    /\ search env options (QObject (mkSearchQuery source "")) requester
       <> ([HostSearch (QObject (mkSearchQuery source "")) requester],
           _search env (QObject (mkSearchQuery source "")) requester).
Proof.
  intros env options source requester.
  split; [reflexivity|]. split; [reflexivity|]. discriminate.
Qed.

(** ** Failures of the fetcher *)

(** C2, as the code has it.  When the fetcher of a matched catalog URL
    throws, the interceptor returns an outcome and throws nothing: the load
    type is the one the thrown value declares, [LOAD_FAILED] without one; the
    track list is empty; there is no playlist summary; and the failure field
    holds the thrown value's message when that message is a non-empty
    string, and is absent otherwise. *)
Theorem fetch_failure_becomes_outcome :
  forall env options query requester kind id func t e,
    classify (finalQuery query) = Normal (Some kind, Some id) ->
    get_property kind (functions env options) = Some func ->
    func id = (t, Throw e) ->
    exists r,
      search env options query requester = (t, Normal r)
      /\ sr_loadType r = match err_loadType e with
                         | Some declared => declared
                         | None => "LOAD_FAILED"
                         end
      /\ sr_tracks r = []
      /\ sr_playlist r = None
      /\ sr_exception r = match err_message e with
                          | Some msg =>
                              if str_truthy msg then Some (mkException msg "COMMON") else None
                          | None => None
                          end.
Proof.
  intros env options query requester kind id func t e Hclass Hfunc Hcall.
  rewrite (search_matched env options requester query kind id func Hclass Hfunc), Hcall.
  exists (failed e). repeat split.
Qed.

Lemma fetch_failure_sample :
  exists r,
    search (mkEnv (fun _ => Throw Sample.transport_down)
                  (fun _ => Throw Sample.transport_down)
                  (fun _ => Throw Sample.transport_down)
                  (fun _ _ => Normal Sample.host_result) Sample.resolve_ok)
           (Sample.options None None)
           (QString "https://www.deezer.com/fr/album/302127") JNull
    = ([HttpGet (album_url "302127")], Normal r)
    /\ sr_loadType r = "LOAD_FAILED"
    /\ sr_tracks r = []
    /\ sr_playlist r = None
    /\ sr_exception r
       = Some (mkException "Request failed with status code 503" "COMMON").
Proof.
  apply (fetch_failure_becomes_outcome
           (mkEnv (fun _ => Throw Sample.transport_down)
                  (fun _ => Throw Sample.transport_down)
                  (fun _ => Throw Sample.transport_down)
                  (fun _ _ => Normal Sample.host_result) Sample.resolve_ok)
           (Sample.options None None)
           (QString "https://www.deezer.com/fr/album/302127") JNull
           "album" "302127"
           (getAlbumTracks
              (mkEnv (fun _ => Throw Sample.transport_down)
                     (fun _ => Throw Sample.transport_down)
                     (fun _ => Throw Sample.transport_down)
                     (fun _ _ => Normal Sample.host_result) Sample.resolve_ok)
              (Sample.options None None))
           [HttpGet (album_url "302127")] Sample.transport_down);
    reflexivity.
Defined.

(** C2 as stated fails for a thrown error whose message is empty (an
    [Error] constructed without a message): the outcome has no failure field
    at all, so it does not carry that message. *)
Lemma fetch_failure_empty_message_has_no_failure_field :
  getTrack (mkEnv (fun _ => Throw (mkError HostError None (Some "")))
                  (fun _ => Throw (mkError HostError None (Some "")))
                  (fun _ => Throw (mkError HostError None (Some "")))
                  (fun _ _ => Normal Sample.host_result) Sample.resolve_ok)
           "3135556"
  = ([HttpGet (track_url "3135556")], Throw (mkError HostError None (Some "")))
  /\ search (mkEnv (fun _ => Throw (mkError HostError None (Some "")))
                   (fun _ => Throw (mkError HostError None (Some "")))
                   (fun _ => Throw (mkError HostError None (Some "")))
                   (fun _ _ => Normal Sample.host_result) Sample.resolve_ok)
            (Sample.options None None)
            (QString "https://www.deezer.com/track/3135556") JNull
     = ([HttpGet (track_url "3135556")],
        Normal (mkSearchResult "LOAD_FAILED" [] None None))
  /\ ~ (forall env options query requester kind id func t e,
          classify (finalQuery query) = Normal (Some kind, Some id) ->
          get_property kind (functions env options) = Some func ->
          func id = (t, Throw e) ->
          exists r failure,
            search env options query requester = (t, Normal r)
            /\ sr_tracks r = []
            /\ sr_exception r = Some failure
            /\ err_message e = Some (ex_message failure)).
Proof.
  split; [reflexivity|]. split; [reflexivity|].
  intros claim.
  destruct (claim (mkEnv (fun _ => Throw (mkError HostError None (Some "")))
                         (fun _ => Throw (mkError HostError None (Some "")))
                         (fun _ => Throw (mkError HostError None (Some "")))
                         (fun _ _ => Normal Sample.host_result) Sample.resolve_ok)
                  (Sample.options None None)
                  (QString "https://www.deezer.com/track/3135556") JNull
                  "track" "3135556" _ _ _ eq_refl eq_refl eq_refl)
    as (r & failure & Hsearch & _ & Hfailure & _).
  injection Hsearch as <-. discriminate Hfailure.
Qed.

(** ** Track URLs *)

Lemma getTrack_one_descriptor (env : Env) (id : string) (t : list Event) (data : Result) :
  getTrack env id = (t, Normal data) ->
  t = [HttpGet (track_url id)]
  /\ res_name data = None
  /\ exists raw q,
      Axios_get_track env (track_url id) = Normal raw
      /\ convertToUnresolved raw = Normal q
      /\ res_tracks data = [q].
Proof.
  rewrite getTrack_eq.
  destruct (Axios_get_track env (track_url id)) as [raw|e]; [|discriminate].
  destruct (convertToUnresolved raw) as [q|e] eqn:Hq; [|discriminate].
  intros [= <- <-]. repeat split. exists raw, q. repeat split. assumption.
Qed.

(** ** Eager resolution *)

(** When the call of the resolver returns, every descriptor has its track in
    the outcome: under eager resolution the track as the call left it. *)
Lemma survivors_asynchronous (env : Env) (options : DeezerOptions) (requester : jsval)
      (qs : list UnresolvedQuery) :
  asynchronous (resolve env) ->
  length (survivors env options requester qs) = length qs
  /\ (flag (convertUnresolved options) = true ->
      Forall2 (fun q track => resolve env (buildUnresolved q requester) = Normal track)
              qs (survivors env options requester qs)).
Proof.
  intros Hasync. unfold survivors. destruct (flag (convertUnresolved options)).
  - induction qs as [|q qs [IHlen IHall]]; [split; [reflexivity | constructor]|].
    cbn [flat_map]. unfold resolution at 1 3.
    destruct (Hasync (buildUnresolved q requester)) as [track Htrack]. rewrite Htrack.
    cbn [app length]. split; [f_equal; exact IHlen|].
    intros _. constructor; [exact Htrack | exact (IHall eq_refl)].
  - split; [apply length_map | discriminate].
Qed.

(** C3. For a track URL whose fetch succeeds the outcome has load type
    [TRACK_LOADED], exactly one track, no playlist summary and no failure,
    with eager resolution as without it.  The resolver is the host's [async]
    method, whose call returns: the one track is the fetched descriptor's,
    unresolved when eager resolution is off and as the call of the resolver
    left it when it is on. *)
Theorem track_url_loads_exactly_one_track :
  forall env options query requester id t data,
    asynchronous (resolve env) ->
    classify (finalQuery query) = Normal (Some "track", Some id) ->
    getTrack env id = (t, Normal data) ->
    exists q track r,
      res_tracks data = [q]
      /\ search env options query requester
         = ((t ++ resolutions options requester [q])%list, Normal r)
      /\ sr_loadType r = "TRACK_LOADED"
      /\ sr_tracks r = [track]
      /\ (if flag (convertUnresolved options)
          then resolve env (buildUnresolved q requester) = Normal track
          else track = buildUnresolved q requester)
      /\ sr_playlist r = None
      /\ sr_exception r = None.
Proof.
  intros env options query requester id t data Hasync Hclass Hfetch.
  destruct (getTrack_one_descriptor env id t data Hfetch)
    as (_ & _ & raw & q & _ & _ & Htracks).
  destruct (Hasync (buildUnresolved q requester)) as [resolved Hresolved].
  exists q, (if flag (convertUnresolved options) then resolved else buildUnresolved q requester).
  eexists.
  rewrite (search_matched env options requester query "track" id (getTrack env) Hclass eq_refl).
  rewrite Hfetch, Htracks. split; [reflexivity|]. split; [reflexivity|].
  split; [reflexivity|]. cbn [loaded sr_tracks sr_playlist sr_exception].
  unfold survivors, resolution.
  destruct (flag (convertUnresolved options)).
  - cbn [flat_map]. rewrite Hresolved. repeat split.
  - repeat split.
Qed.

(** A track URL under eager resolution, with a resolution that ends in
    failure for the fetched track: the outcome holds that one track. *)
Lemma track_url_sample :
  exists r,
    search (Sample.env (Some (Sample.track "One More Time" 320)) Sample.album
                       Sample.playlist_with_gap
                       (unawaited (Sample.resolve_except "One More Time")))
           (Sample.options None (Some true))
           (QString "https://www.deezer.com/track/3135556") JNull
    = ([HttpGet (track_url "3135556");
        ResolveTrack (buildUnresolved (Sample.descriptor "One More Time" 320) JNull)],
       Normal r)
    /\ sr_loadType r = "TRACK_LOADED"
    /\ sr_tracks r = [mkTrack "One More Time" (Some "Daft Punk") (Num 320000) JNull None]
    /\ length (sr_tracks r) = 1%nat
    /\ sr_playlist r = None.
Proof.
  destruct (track_url_loads_exactly_one_track
              (Sample.env (Some (Sample.track "One More Time" 320)) Sample.album
                          Sample.playlist_with_gap
                          (unawaited (Sample.resolve_except "One More Time")))
              (Sample.options None (Some true))
              (QString "https://www.deezer.com/track/3135556") JNull "3135556"
              [HttpGet (track_url "3135556")]
              (mkResult [Sample.descriptor "One More Time" 320] None)
              (fun track => ex_intro _ track eq_refl) eq_refl eq_refl)
    as (q & track & r & Hq & Hsearch & Htype & Htracks & Htrack & Hsummary & _).
  injection Hq as <-. injection Htrack as <-.
  exists r. split; [exact Hsearch|]. split; [exact Htype|].
  split; [exact Htracks|]. split; [rewrite Htracks; reflexivity | exact Hsummary].
Defined.

(** C4, as the code runs it.  The host's resolver is an [async] method and
    the callback calls it without awaiting it, so the [catch] around the call
    is never entered and no descriptor is ever removed: for every URL whose
    fetch succeeds the outcome holds one track per descriptor, in order,
    each as the call of the resolver left it, however the resolutions end. *)
Theorem unawaited_resolution_keeps_every_track :
  forall env options requester query kind id func t data,
    asynchronous (resolve env) ->
    classify (finalQuery query) = Normal (Some kind, Some id) ->
    get_property kind (functions env options) = Some func ->
    func id = (t, Normal data) ->
    exists r,
      search env options query requester
      = ((t ++ resolutions options requester (res_tracks data))%list, Normal r)
      /\ length (sr_tracks r) = length (res_tracks data)
      /\ (flag (convertUnresolved options) = true ->
          Forall2 (fun q track => resolve env (buildUnresolved q requester) = Normal track)
                  (res_tracks data) (sr_tracks r)).
Proof.
  intros env options requester query kind id func t data Hasync Hclass Hfunc Hcall.
  rewrite (search_matched env options requester query kind id func Hclass Hfunc), Hcall.
  eexists. split; [reflexivity|]. cbn [loaded sr_tracks].
  apply survivors_asynchronous. assumption.
Qed.

(** An album of five under eager resolution, the resolution of the third
    track ending in failure: the resolver is called for all five and the
    outcome holds all five, the third among them. *)
Lemma unawaited_failure_of_the_third_of_five :
  exists r,
    search (Sample.env None Sample.album Sample.playlist_with_gap
                       (unawaited (Sample.resolve_except "Digital Love")))
           (Sample.options None (Some true))
           (QString "https://www.deezer.com/album/302127") JNull
    = (([HttpGet (album_url "302127")]
          ++ map (fun q => ResolveTrack (buildUnresolved q JNull)) Sample.five_normalized)%list,
       Normal r)
    /\ length (sr_tracks r) = 5%nat
    /\ sr_tracks r = map (fun q => buildUnresolved q JNull) Sample.five_normalized
    /\ Sample.resolve_except "Digital Love"
         (buildUnresolved (Sample.descriptor "Digital Love" 301) JNull)
       = Throw (new_error HostError "No tracks found.")
    /\ In (buildUnresolved (Sample.descriptor "Digital Love" 301) JNull) (sr_tracks r).
Proof.
  destruct (unawaited_resolution_keeps_every_track
              (Sample.env None Sample.album Sample.playlist_with_gap
                          (unawaited (Sample.resolve_except "Digital Love")))
              (Sample.options None (Some true)) JNull
              (QString "https://www.deezer.com/album/302127") "album" "302127"
              (getAlbumTracks
                 (Sample.env None Sample.album Sample.playlist_with_gap
                             (unawaited (Sample.resolve_except "Digital Love")))
                 (Sample.options None (Some true)))
              [HttpGet (album_url "302127")]
              (mkResult Sample.five_normalized (Some "Discovery"))
              (fun track => ex_intro _ track eq_refl) eq_refl eq_refl eq_refl)
    as (r & Hsearch & Hlength & Hall).
  exists r. split; [exact Hsearch|]. split; [exact Hlength|].
  assert (Htracks : sr_tracks r = map (fun q => buildUnresolved q JNull) Sample.five_normalized).
  { specialize (Hall eq_refl). cbn [res_tracks] in Hall.
    generalize dependent (sr_tracks r). intros tracks _ Hall.
    unfold Sample.five_normalized in *.
    repeat match goal with
           | H : Forall2 _ (_ :: _) _ |- _ =>
               inversion H as [|? ? ? ? [= <-] ?]; subst; clear H
           | H : Forall2 _ [] _ |- _ => inversion H; subst; clear H
           end.
    reflexivity. }
  split; [exact Htracks|]. split; [reflexivity|].
  rewrite Htracks. cbn [map In Sample.five_normalized]. right. right. left. reflexivity.
Defined.

(** ** The playlist summary *)

(** C5. The duration of the playlist summary is the sum of the durations of
    the tracks the outcome returns, a missing duration counting 0: for the
    builder with any track list and a non-empty name, and for the outcome of
    every album or playlist URL whose fetch succeeds, whatever the fetcher
    left out before.  The sum is that of the integers as long as the
    magnitudes of the durations add up to a safe integer: every value the
    accumulator of the reduce takes is then a safe integer, and the additions
    of the source are exact. *)
Theorem playlist_duration_is_sum_of_returned_tracks :
  (forall loadType tracks error name,
      str_truthy name = true ->
      (sum_magnitudes tracks <= MAX_SAFE_INTEGER)%Z ->
      exists r,
        buildSearch loadType (Some tracks) error (Some name) = Normal r
        /\ sr_tracks r = tracks
        /\ sr_playlist r = Some (mkPlaylistInfo name (sum_durations (sr_tracks r)))
        /\ forall k, safe_integer (total_duration (firstn k tracks)))
  /\
  (forall env options query requester kind id func t data,
      kind = "album" \/ kind = "playlist" ->
      classify (finalQuery query) = Normal (Some kind, Some id) ->
      get_property kind (functions env options) = Some func ->
      func id = (t, Normal data) ->
      exists r summary,
        search env options query requester
        = ((t ++ resolutions options requester (res_tracks data))%list, Normal r)
        /\ sr_playlist r = Some summary
        /\ pl_name summary = name_or (res_name data) "Untitled"
        /\ ((sum_magnitudes (sr_tracks r) <= MAX_SAFE_INTEGER)%Z ->
            pl_duration summary = sum_durations (sr_tracks r)
            /\ forall k, safe_integer (total_duration (firstn k (sr_tracks r))))).
Proof.
  split.
  - intros loadType tracks error name Hname Hsafe. unfold buildSearch. rewrite Hname.
    eexists. split; [reflexivity|]. cbn [sr_tracks sr_playlist].
    rewrite total_duration_sum. split; [reflexivity|]. split; [reflexivity|].
    apply accumulator_safe. assumption.
  - intros env options query requester kind id func t data Hkind Hclass Hfunc Hcall.
    rewrite (search_matched env options requester query kind id func Hclass Hfunc), Hcall.
    eexists. eexists. split; [reflexivity|]. unfold loaded. cbn [sr_tracks sr_playlist].
    destruct Hkind as [-> | ->]; (split; [reflexivity|]); cbn [pl_name pl_duration];
      (split; [reflexivity|]); intros Hsafe;
      (split; [apply total_duration_sum | apply accumulator_safe; assumption]).
Qed.

(** The playlist with a title-less record: five tracks are returned, of 320,
    212, 301, 224 and 211 seconds, and the summary has their 1268000
    milliseconds. *)
Lemma playlist_duration_sample :
  exists r,
    search (Sample.env None Sample.album Sample.playlist_with_gap Sample.resolve_ok)
           (Sample.options None None)
           (QObject (mkSearchQuery None "deezer.com/playlist/908622995")) JNull
    = ([HttpGet (playlist_url "908622995")], Normal r)
    /\ map ut_duration (sr_tracks r)
       = [Num 320000; Num 212000; Num 301000; Num 224000; Num 211000]
    /\ sr_playlist r = Some (mkPlaylistInfo "Favourites" 1268000).
Proof.
  destruct (proj2 playlist_duration_is_sum_of_returned_tracks
                  (Sample.env None Sample.album Sample.playlist_with_gap Sample.resolve_ok)
                  (Sample.options None None)
                  (QObject (mkSearchQuery None "deezer.com/playlist/908622995")) JNull
                  "playlist" "908622995"
                  (getPlaylistTracks
                     (Sample.env None Sample.album Sample.playlist_with_gap Sample.resolve_ok)
                     (Sample.options None None))
                  [HttpGet (playlist_url "908622995")]
                  (mkResult Sample.five_normalized (Some "Favourites"))
                  (or_intror eq_refl) eq_refl eq_refl eq_refl)
    as (r & summary & Hsearch & Hsummary & Hname & Hduration).
  assert (Htracks : sr_tracks r = map (fun q => buildUnresolved q JNull) Sample.five_normalized).
  { assert (Hrun : search (Sample.env None Sample.album Sample.playlist_with_gap
                                      Sample.resolve_ok)
                          (Sample.options None None)
                          (QObject (mkSearchQuery None "deezer.com/playlist/908622995")) JNull
                   = ([HttpGet (playlist_url "908622995")],
                      Normal (loaded "playlist" (Some "Favourites")
                                     (map (fun q => buildUnresolved q JNull)
                                          Sample.five_normalized))))
      by reflexivity.
    rewrite Hrun in Hsearch. injection Hsearch as <-. reflexivity. }
  exists r. split; [exact Hsearch|]. split; [rewrite Htracks; reflexivity|].
  rewrite Htracks in Hduration.
  destruct Hduration as [Hduration _]; [unfold MAX_SAFE_INTEGER; cbn; lia|].
  rewrite Hsummary. f_equal. destruct summary as [name duration].
  cbn [pl_name pl_duration] in Hname, Hduration. rewrite Hname, Hduration. reflexivity.
Defined.

(** ** Further properties of the interceptor *)

Lemma classify_kind (fq : FinalQuery) (type id : option string) :
  classify fq = Normal (type, id) ->
  (type = None /\ id = None)
  \/ exists kind i, type = Some kind /\ id = Some i /\ In kind kinds.
Proof.
  destruct fq as [s|q]; [|discriminate].
  change (classify (FQString s)) with (classify (finalQuery (QString s))).
  rewrite classify_string.
  destruct (attempt REGEX s 0) as [[e cs]|] eqn:Hattempt.
  - destruct (attempt_sound s e cs Hattempt) as (kind & i & -> & Hurl).
    cbn. intros [= <- <-]. right. exists kind, i. repeat split.
    destruct Hurl. assumption.
  - intros [= <- <-]. left. split; reflexivity.
Qed.

Lemma kind_has_handler (env : Env) (options : DeezerOptions) (kind : string) :
  In kind kinds -> exists func, get_property kind (functions env options) = Some func.
Proof.
  unfold kinds. cbn [In]. intros [<- | [<- | [<- | []]]]; eexists; reflexivity.
Qed.

Lemma handler_fetches_once (env : Env) (options : DeezerOptions) (kind id : string)
      (func : string -> M Result) :
  get_property kind (functions env options) = Some func ->
  fst (func id) = [HttpGet (BASE_URL ++ "/" ++ kind ++ "/" ++ id)].
Proof.
  intros Hfunc.
  destruct (functions_kind env options kind func Hfunc) as [[-> ->] | [[-> ->] | [-> ->]]].
  - rewrite getTrack_eq. reflexivity.
  - rewrite getAlbumTracks_eq. reflexivity.
  - rewrite getPlaylistTracks_eq. reflexivity.
Qed.

(** Classification yields nothing, or a kind that has a handler together
    with an id: the branch of [search] for a kind without a handler is never
    taken. *)
Theorem matched_kind_has_handler :
  forall env options query type id,
    classify (finalQuery query) = Normal (type, id) ->
    (type = None /\ id = None /\ js_in type (functions env options) = false)
    \/ exists kind i func,
        type = Some kind /\ id = Some i
        /\ get_property kind (functions env options) = Some func
        /\ fst (func i) = [HttpGet (BASE_URL ++ "/" ++ kind ++ "/" ++ i)].
Proof.
  intros env options query type id Hclass.
  destruct (classify_kind _ _ _ Hclass) as [[-> ->] | (kind & i & -> & -> & Hkind)].
  - left. repeat split.
  - right. destruct (kind_has_handler env options kind Hkind) as [func Hfunc].
    exists kind, i, func. repeat split; [assumption|].
    apply (handler_fetches_once env options); assumption.
Qed.

Lemma matched_kind_sample :
  exists kind i func,
    Some "album" = Some kind /\ Some "7" = Some i
    /\ get_property kind
         (functions (Sample.env None Sample.album Sample.playlist_with_gap Sample.resolve_ok)
                    (Sample.options None None)) = Some func
    /\ fst (func i) = [HttpGet (BASE_URL ++ "/" ++ kind ++ "/" ++ i)].
Proof.
  destruct (matched_kind_has_handler
              (Sample.env None Sample.album Sample.playlist_with_gap Sample.resolve_ok)
              (Sample.options None None) (QString "deezer.com/album/7")
              (Some "album") (Some "7") eq_refl) as [[H _] | H].
  - discriminate H.
  - exact H.
Defined.

(** A search whose query text is a catalog URL makes exactly one HTTP
    request, to the endpoint of the kind with the id of the URL, and
    completes with an outcome: whatever the fetcher throws, nothing is thrown
    to the caller. *)
Theorem matched_search_fetches_once_and_returns :
  forall env options query requester kind id,
    classify (finalQuery query) = Normal (Some kind, Some id) ->
    exists rest r,
      search env options query requester
      = (HttpGet (BASE_URL ++ "/" ++ kind ++ "/" ++ id) :: rest, Normal r)
      /\ forall url, ~ In (HttpGet url) rest.
Proof.
  intros env options query requester kind id Hclass.
  destruct (classify_kind _ _ _ Hclass)
    as [[H _] | (kind' & i & [= <-] & [= <-] & Hkind)]; [discriminate H|].
  destruct (kind_has_handler env options kind Hkind) as [func Hfunc].
  pose proof (handler_fetches_once env options kind id func Hfunc) as Htrace.
  rewrite (search_matched env options requester query kind id func Hclass Hfunc).
  destruct (func id) as [t [data|e]]; cbn [fst] in Htrace; subst t.
  - eexists. eexists. split; [reflexivity|].
    intros url Hin. unfold resolutions in Hin.
    destruct (flag (convertUnresolved options)); [|destruct Hin].
    apply in_map_iff in Hin. destruct Hin as [q [Hq _]]. discriminate Hq.
  - exists [], (failed e). split; [reflexivity|]. intros url [].
Qed.

Lemma matched_search_sample :
  exists rest r,
    search (Sample.env None Sample.album Sample.playlist_with_gap Sample.resolve_ok)
           (Sample.options None (Some true))
           (QString "http://deezer.com/en/playlist/908622995?utm_source=share") JObject
    = (HttpGet (BASE_URL ++ "/" ++ "playlist" ++ "/" ++ "908622995") :: rest, Normal r)
    /\ forall url, ~ In (HttpGet url) rest.
Proof.
  exact (matched_search_fetches_once_and_returns
           (Sample.env None Sample.album Sample.playlist_with_gap Sample.resolve_ok)
           (Sample.options None (Some true))
           (QString "http://deezer.com/en/playlist/908622995?utm_source=share") JObject
           "playlist" "908622995" eq_refl).
Defined.

(** A negative limit is truthy and [splice] clamps its count to 0: the album
    fetcher then returns no track at all. *)
Theorem negative_limit_returns_no_tracks :
  forall env options id N album data normalized,
    albumLimit options = Some (Num N) ->
    (N < 0)%Z ->
    Axios_get_album env (album_url id) = Normal album ->
    album_tracks_data album = Normal data ->
    collect album_item data = Normal normalized ->
    getAlbumTracks env options id
    = ([HttpGet (album_url id)],
       Normal (mkResult [] (Some (name_or (album_name album) "Untitled album")))).
Proof.
  intros env options id N album data normalized Hlimit HN Hget Hdata Hnorm.
  rewrite getAlbumTracks_eq, Hget, Hdata, Hnorm, Hlimit. unfold fetched, apply_limit.
  destruct (Z.eqb_spec N 0); [lia|]. cbn [negb].
  rewrite splice_negative_count by assumption. reflexivity.
Qed.

Lemma negative_limit_sample :
  getAlbumTracks (Sample.env None Sample.album Sample.playlist_with_gap Sample.resolve_ok)
                 (Sample.options (Some (Num (-1))) None) "302127"
  = ([HttpGet (album_url "302127")], Normal (mkResult [] (Some "Discovery"))).
Proof.
  apply (negative_limit_returns_no_tracks
           (Sample.env None Sample.album Sample.playlist_with_gap Sample.resolve_ok)
           (Sample.options (Some (Num (-1))) None) "302127" (-1)
           Sample.album Sample.five Sample.five_normalized);
    [reflexivity | lia | reflexivity | reflexivity | reflexivity].
Defined.

(** ** Construction of the plugin *)

Lemma wrong_type_number (v : value) :
  wrong_type v "number" = true <-> not_a_number v.
Proof. destruct v; cbn; intuition discriminate. Qed.

Lemma wrong_type_boolean (v : value) :
  wrong_type v "boolean" = true <-> not_a_boolean v.
Proof. destruct v; cbn; intuition discriminate. Qed.

Lemma wrong_type_number_false (v : value) :
  wrong_type v "number" = false <-> v = VUndefined \/ exists n, v = VNumber n.
Proof.
  destruct v; cbn; split; intros H; try discriminate H; eauto;
    destruct H as [H | [? H]]; discriminate H.
Qed.

Lemma wrong_type_boolean_false (v : value) :
  wrong_type v "boolean" = false <-> v = VUndefined \/ exists b, v = VBoolean b.
Proof.
  destruct v; cbn; split; intros H; try discriminate H; eauto;
    destruct H as [H | [? H]]; discriminate H.
Qed.

(** Construction and the options object are inverse to each other: the
    options of a plugin, written back as an object, construct the same
    plugin, and an options object that constructs a plugin holds exactly the
    keys of that plugin's options.  So construction succeeds exactly for an
    object whose limits are absent or numbers (any number: zero, negative
    and NaN included) and whose [convertUnresolved] is absent or a boolean. *)
Theorem Deezer_new_round_trip :
  (forall o, Deezer_new (Some (to_raw o)) = Normal o)
  /\ (forall raw o, Deezer_new raw = Normal o -> raw = Some (to_raw o)).
Proof.
  split.
  - intros [[p|] [a|] [c|]]; reflexivity.
  - intros [r|] o; unfold Deezer_new, check; [|discriminate].
    destruct (wrong_type (raw_convertUnresolved r) "boolean") eqn:Hc; [discriminate|].
    destruct (wrong_type (raw_playlistLimit r) "number") eqn:Hp; [discriminate|].
    destruct (wrong_type (raw_albumLimit r) "number") eqn:Ha; [discriminate|].
    intros [= <-]. destruct r as [p a c]. cbn in *.
    apply wrong_type_boolean_false in Hc. apply wrong_type_number_false in Hp, Ha.
    destruct Hc as [-> | [b ->]], Hp as [-> | [n ->]], Ha as [-> | [m ->]]; reflexivity.
Qed.

Lemma Deezer_new_round_trip_sample :
  Some (mkRawOptions (VNumber (Num 3)) VUndefined (VBoolean false))
  = Some (to_raw (mkOptions (Some (Num 3)) None (Some false))).
Proof.
  exact (proj2 Deezer_new_round_trip
               (Some (mkRawOptions (VNumber (Num 3)) VUndefined (VBoolean false)))
               (mkOptions (Some (Num 3)) None (Some false)) eq_refl).
Defined.

(** Construction fails with a [TypeError] that names the first key of the
    wrong type, in the order [convertUnresolved], [playlistLimit],
    [albumLimit], whatever the later keys hold; without an options object it
    fails with the error for empty options.  A null under a key is of the
    wrong type. *)
Theorem Deezer_new_reports_first_mistyped_key :
  Deezer_new None = Throw (new_error TypeError "DeezerOptions must not be empty.")
  /\ (forall p a c,
         not_a_boolean c ->
         Deezer_new (Some (mkRawOptions p a c))
         = Throw (new_error TypeError (option_type_msg "convertUnresolved" "a boolean")))
  /\ (forall p a c,
         ~ not_a_boolean c ->
         not_a_number p ->
         Deezer_new (Some (mkRawOptions p a c))
         = Throw (new_error TypeError (option_type_msg "playlistLimit" "a number")))
  /\ (forall p a c,
         ~ not_a_boolean c ->
         ~ not_a_number p ->
         not_a_number a ->
         Deezer_new (Some (mkRawOptions p a c))
         = Throw (new_error TypeError (option_type_msg "albumLimit" "a number")))
  /\ not_a_number VNull /\ not_a_boolean VNull.
Proof.
  split; [reflexivity|]. split; [|split; [|split; [|split; exact I]]].
  - intros p a c Hc. unfold Deezer_new, check. cbn [raw_convertUnresolved].
    apply wrong_type_boolean in Hc. rewrite Hc. reflexivity.
  - intros p a c Hc Hp. unfold Deezer_new, check.
    cbn [raw_convertUnresolved raw_playlistLimit].
    destruct (wrong_type c "boolean") eqn:Hc'; [apply wrong_type_boolean in Hc'; contradiction|].
    apply wrong_type_number in Hp. rewrite Hp. reflexivity.
  - intros p a c Hc Hp Ha. unfold Deezer_new, check.
    cbn [raw_convertUnresolved raw_playlistLimit raw_albumLimit].
    destruct (wrong_type c "boolean") eqn:Hc'; [apply wrong_type_boolean in Hc'; contradiction|].
    destruct (wrong_type p "number") eqn:Hp'; [apply wrong_type_number in Hp'; contradiction|].
    apply wrong_type_number in Ha. rewrite Ha. reflexivity.
Qed.

(** A string where a boolean belongs is reported before a null limit. *)
Lemma Deezer_new_mistyped_sample :
  Deezer_new (Some (mkRawOptions VNull (VNumber (Num 50)) (VString "yes")))
  = Throw (new_error TypeError (option_type_msg "convertUnresolved" "a boolean"))
  /\ Deezer_new (Some (mkRawOptions VNull (VNumber (Num 50)) (VBoolean true)))
     = Throw (new_error TypeError (option_type_msg "playlistLimit" "a number"))
  /\ Deezer_new (Some (mkRawOptions VUndefined VNull VUndefined))
     = Throw (new_error TypeError (option_type_msg "albumLimit" "a number")).
Proof.
  split; [|split].
  - exact (proj1 (proj2 Deezer_new_reports_first_mistyped_key)
                 VNull (VNumber (Num 50)) (VString "yes") I).
  - exact (proj1 (proj2 (proj2 Deezer_new_reports_first_mistyped_key))
                 VNull (VNumber (Num 50)) (VBoolean true) (fun H => H) I).
  - exact (proj1 (proj2 (proj2 (proj2 Deezer_new_reports_first_mistyped_key)))
                 VUndefined VNull VUndefined (fun H => H) (fun H => H) I).
Defined.

(** ** The playlist fetcher and limits end to end *)

(** With a positive playlist limit [N], the playlist fetcher performs its
    one request and returns the first [min N length] descriptors of the
    normalized sequence (records without a title already left out), in
    catalog order. *)
Theorem playlist_limit_is_prefix_truncation :
  forall env options id N playlist data normalized,
    playlistLimit options = Some (Num N) ->
    (0 < N)%Z ->
    Axios_get_playlist env (playlist_url id) = Normal playlist ->
    playlist_tracks_data playlist = Normal data ->
    collect playlist_item data = Normal normalized ->
    exists r,
      getPlaylistTracks env options id = ([HttpGet (playlist_url id)], Normal r)
      /\ res_tracks r = firstn (Z.to_nat N) normalized
      /\ length (res_tracks r) = Nat.min (Z.to_nat N) (length normalized)
      /\ res_name r = Some (name_or (playlist_name playlist) "Untitled playlist").
Proof.
  intros env options id N playlist data normalized Hlimit HN Hget Hdata Hnorm.
  rewrite getPlaylistTracks_eq, Hget, Hdata, Hnorm, Hlimit. unfold fetched.
  rewrite apply_limit_positive by assumption.
  eexists. split; [reflexivity|]. cbn [res_tracks res_name].
  split; [reflexivity|]. split; [apply length_firstn | reflexivity].
Qed.

(** The playlist of six records, one without a title, under a limit of 4:
    the first four titled tracks. *)
Lemma playlist_limit_four_of_five :
  exists r,
    getPlaylistTracks
      (Sample.env None Sample.album Sample.playlist_with_gap Sample.resolve_ok)
      (Sample.options (Some (Num 4)) None) "908622995"
    = ([HttpGet (playlist_url "908622995")], Normal r)
    /\ res_tracks r = firstn 4 Sample.five_normalized
    /\ length (res_tracks r) = 4%nat
    /\ res_name r = Some "Favourites".
Proof.
  apply (playlist_limit_is_prefix_truncation
           (Sample.env None Sample.album Sample.playlist_with_gap Sample.resolve_ok)
           (Sample.options (Some (Num 4)) None) "908622995" 4
           Sample.playlist_with_gap
           (map (fun t => Some {| pi_track := t |})
                (firstn 2 Sample.five ++ Some Sample.untitled :: skipn 2 Sample.five)%list)
           Sample.five_normalized);
    [reflexivity | lia | reflexivity | reflexivity | reflexivity].
Defined.

Lemma survivors_length (env : Env) (options : DeezerOptions) (requester : jsval)
      (qs : list UnresolvedQuery) :
  (length (survivors env options requester qs) <= length qs)%nat.
Proof.
  unfold survivors. destruct (flag (convertUnresolved options)).
  - induction qs as [|q qs IH]; [apply Nat.le_refl|]. cbn [flat_map length].
    rewrite length_app. destruct (resolution env requester q); cbn [length]; lia.
  - rewrite length_map. apply Nat.le_refl.
Qed.

Lemma resolutions_length (options : DeezerOptions) (requester : jsval)
      (qs : list UnresolvedQuery) :
  length (resolutions options requester qs)
  = if flag (convertUnresolved options) then length qs else 0%nat.
Proof.
  unfold resolutions. destruct (flag (convertUnresolved options));
    [apply length_map | reflexivity].
Qed.

(** The limit is applied before eager resolution.  For an album URL and a
    positive album limit [N], the outcome holds at most [N] tracks, and the
    resolver is called only for the first [min N length] descriptors: at
    most [N] times, however long the album is. *)
Theorem album_limit_bounds_outcome_and_resolver_calls :
  forall env options query requester id N album data normalized,
    classify (finalQuery query) = Normal (Some "album", Some id) ->
    albumLimit options = Some (Num N) ->
    (0 < N)%Z ->
    Axios_get_album env (album_url id) = Normal album ->
    album_tracks_data album = Normal data ->
    collect album_item data = Normal normalized ->
    exists r,
      search env options query requester
      = (HttpGet (album_url id)
           :: resolutions options requester (firstn (Z.to_nat N) normalized),
         Normal r)
      /\ sr_tracks r
         = survivors env options requester (firstn (Z.to_nat N) normalized)
      /\ (length (sr_tracks r) <= Z.to_nat N)%nat
      /\ (length (resolutions options requester (firstn (Z.to_nat N) normalized))
          <= Z.to_nat N)%nat.
Proof.
  intros env options query requester id N album data normalized
         Hclass Hlimit HN Hget Hdata Hnorm.
  rewrite (search_matched env options requester query "album" id
                          (getAlbumTracks env options) Hclass eq_refl).
  rewrite getAlbumTracks_eq, Hget, Hdata, Hnorm, Hlimit. unfold fetched.
  rewrite apply_limit_positive by assumption. cbn [res_tracks res_name].
  eexists. split; [reflexivity|]. cbn [loaded sr_tracks]. split; [reflexivity|].
  split.
  - eapply Nat.le_trans; [apply survivors_length|]. rewrite length_firstn. apply Nat.le_min_l.
  - rewrite resolutions_length. destruct (flag (convertUnresolved options)); [|lia].
    rewrite length_firstn. apply Nat.le_min_l.
Qed.

Lemma album_limit_two_resolver_calls :
  exists r,
    search (Sample.env None Sample.album Sample.playlist_with_gap Sample.resolve_ok)
           (Sample.options (Some (Num 2)) (Some true))
           (QString "deezer.com/album/302127") JNull
    = (HttpGet (album_url "302127")
         :: resolutions (Sample.options (Some (Num 2)) (Some true)) JNull
                        (firstn 2 Sample.five_normalized),
       Normal r)
    /\ sr_tracks r
       = survivors (Sample.env None Sample.album Sample.playlist_with_gap Sample.resolve_ok)
                   (Sample.options (Some (Num 2)) (Some true)) JNull
                   (firstn 2 Sample.five_normalized)
    /\ (length (sr_tracks r) <= 2)%nat
    /\ (length (resolutions (Sample.options (Some (Num 2)) (Some true)) JNull
                            (firstn 2 Sample.five_normalized)) <= 2)%nat.
Proof.
  exact (album_limit_bounds_outcome_and_resolver_calls
           (Sample.env None Sample.album Sample.playlist_with_gap Sample.resolve_ok)
           (Sample.options (Some (Num 2)) (Some true))
           (QString "deezer.com/album/302127") JNull "302127" 2
           Sample.album Sample.five Sample.five_normalized
           eq_refl eq_refl eq_refl eq_refl eq_refl eq_refl).
Defined.

(** ** Records the normalizer rejects *)

(** Every error of the normalizer has a non-empty message and declares no
    load type. *)
Lemma convertToUnresolved_error (raw : option DeezerTrack) (e : jsError) :
  convertToUnresolved raw = Throw e ->
  err_loadType e = None
  /\ exists msg, err_message e = Some msg /\ str_truthy msg = true.
Proof.
  unfold convertToUnresolved.
  destruct raw as [t|]; [|intros [= <-]; split; [|eexists; split]; reflexivity].
  destruct (dt_artist t); [|intros [= <-]; split; [|eexists; split]; reflexivity].
  destruct (truthy (dt_title t)); cbn [negb];
    [|intros [= <-]; split; [|eexists; split]; reflexivity].
  destruct (dt_title t); intros [= <-]; split; try reflexivity; eexists; split; reflexivity.
Qed.

Lemma collect_throws_after {A} (f : A -> Completion (option UnresolvedQuery))
      (before after : list A) (x : A) (kept : list UnresolvedQuery) (e : jsError) :
  collect f before = Normal kept ->
  f x = Throw e ->
  collect f (before ++ x :: after) = Throw e.
Proof.
  intros Hbefore Hx. rewrite collect_app, Hbefore. cbn [collect]. rewrite Hx. reflexivity.
Qed.

Lemma album_item_rejected (t : DeezerTrack) (e : jsError) :
  truthy (dt_title t) = true ->
  convertToUnresolved (Some t) = Throw e ->
  album_item (Some t) = Throw e.
Proof. intros Ht He. unfold album_item. rewrite Ht, He. reflexivity. Qed.

Lemma playlist_item_rejected (t : DeezerTrack) (e : jsError) :
  truthy (dt_title t) = true ->
  convertToUnresolved (Some t) = Throw e ->
  playlist_item (Some {| pi_track := Some t |}) = Throw e.
Proof. intros Ht He. unfold playlist_item. cbn [pi_track]. rewrite Ht, He. reflexivity. Qed.

(** The outcome that reports an error of the normalizer. *)
Lemma failed_with_message (e : jsError) (msg : string) :
  err_loadType e = None ->
  err_message e = Some msg ->
  str_truthy msg = true ->
  failed e = mkSearchResult "LOAD_FAILED" [] None (Some (mkException msg "COMMON")).
Proof. intros Hl Hm Ht. unfold failed. rewrite Hl, Hm, Ht. reflexivity. Qed.

(** One record that has a title and is still rejected by the normalizer (no
    artist, or a title that is not a string) fails the whole album and the
    whole playlist, valid records before and after it notwithstanding; on
    the track path any rejected payload does.  In each case the search
    outcome is [LOAD_FAILED] with no tracks, and its failure field carries
    the normalizer's message. *)
Theorem rejected_record_fails_the_whole_fetch :
  (forall env options query requester id album before t after kept e,
      classify (finalQuery query) = Normal (Some "album", Some id) ->
      Axios_get_album env (album_url id) = Normal album ->
      album_tracks_data album = Normal (before ++ Some t :: after)%list ->
      collect album_item before = Normal kept ->
      truthy (dt_title t) = true ->
      convertToUnresolved (Some t) = Throw e ->
      exists msg,
        err_message e = Some msg
        /\ getAlbumTracks env options id = ([HttpGet (album_url id)], Throw e)
        /\ search env options query requester
           = ([HttpGet (album_url id)],
              Normal (mkSearchResult "LOAD_FAILED" [] None
                                     (Some (mkException msg "COMMON")))))
  /\
  (forall env options query requester id playlist before t after kept e,
      classify (finalQuery query) = Normal (Some "playlist", Some id) ->
      Axios_get_playlist env (playlist_url id) = Normal playlist ->
      playlist_tracks_data playlist
      = Normal (before ++ Some {| pi_track := Some t |} :: after)%list ->
      collect playlist_item before = Normal kept ->
      truthy (dt_title t) = true ->
      convertToUnresolved (Some t) = Throw e ->
      exists msg,
        err_message e = Some msg
        /\ getPlaylistTracks env options id = ([HttpGet (playlist_url id)], Throw e)
        /\ search env options query requester
           = ([HttpGet (playlist_url id)],
              Normal (mkSearchResult "LOAD_FAILED" [] None
                                     (Some (mkException msg "COMMON")))))
  /\
  (forall env options query requester id raw e,
      classify (finalQuery query) = Normal (Some "track", Some id) ->
      Axios_get_track env (track_url id) = Normal raw ->
      convertToUnresolved raw = Throw e ->
      exists msg,
        err_message e = Some msg
        /\ getTrack env id = ([HttpGet (track_url id)], Throw e)
        /\ search env options query requester
           = ([HttpGet (track_url id)],
              Normal (mkSearchResult "LOAD_FAILED" [] None
                                     (Some (mkException msg "COMMON"))))).
Proof.
  split; [|split].
  - intros env options query requester id album before t after kept e
           Hclass Hget Hdata Hbefore Ht He.
    destruct (convertToUnresolved_error _ _ He) as (Hload & msg & Hmsg & Htruthy).
    assert (Hfetch : getAlbumTracks env options id = ([HttpGet (album_url id)], Throw e)).
    { rewrite getAlbumTracks_eq, Hget, Hdata.
      rewrite (collect_throws_after album_item before after (Some t) kept e Hbefore)
        by (apply album_item_rejected; assumption).
      reflexivity. }
    exists msg. split; [assumption|]. split; [assumption|].
    rewrite (search_matched env options requester query "album" id
                            (getAlbumTracks env options) Hclass eq_refl), Hfetch.
    rewrite (failed_with_message e msg Hload Hmsg Htruthy). reflexivity.
  - intros env options query requester id playlist before t after kept e
           Hclass Hget Hdata Hbefore Ht He.
    destruct (convertToUnresolved_error _ _ He) as (Hload & msg & Hmsg & Htruthy).
    assert (Hfetch : getPlaylistTracks env options id
                     = ([HttpGet (playlist_url id)], Throw e)).
    { rewrite getPlaylistTracks_eq, Hget, Hdata.
      rewrite (collect_throws_after playlist_item before after
                                    (Some {| pi_track := Some t |}) kept e Hbefore)
        by (apply playlist_item_rejected; assumption).
      reflexivity. }
    exists msg. split; [assumption|]. split; [assumption|].
    rewrite (search_matched env options requester query "playlist" id
                            (getPlaylistTracks env options) Hclass eq_refl), Hfetch.
    rewrite (failed_with_message e msg Hload Hmsg Htruthy). reflexivity.
  - intros env options query requester id raw e Hclass Hget He.
    destruct (convertToUnresolved_error _ _ He) as (Hload & msg & Hmsg & Htruthy).
    assert (Hfetch : getTrack env id = ([HttpGet (track_url id)], Throw e)).
    { rewrite getTrack_eq, Hget, He. reflexivity. }
    exists msg. split; [assumption|]. split; [assumption|].
    rewrite (search_matched env options requester query "track" id
                            (getTrack env) Hclass eq_refl), Hfetch.
    rewrite (failed_with_message e msg Hload Hmsg Htruthy). reflexivity.
Qed.

(** The sample album with a record without artist in third place: the two
    valid records before it and the three after it are lost with it. *)
Lemma rejected_record_sample :
  exists msg,
    err_message (new_error ReferenceError "The track artist array was not provided")
    = Some msg
    /\ getAlbumTracks
         (Sample.env None Faulty.album Sample.playlist_with_gap Sample.resolve_ok)
         (Sample.options None None) "302127"
       = ([HttpGet (album_url "302127")],
          Throw (new_error ReferenceError "The track artist array was not provided"))
    /\ search (Sample.env None Faulty.album Sample.playlist_with_gap Sample.resolve_ok)
              (Sample.options None None)
              (QString "https://www.deezer.com/album/302127") JNull
       = ([HttpGet (album_url "302127")],
          Normal (mkSearchResult "LOAD_FAILED" [] None (Some (mkException msg "COMMON")))).
Proof.
  exact (proj1 rejected_record_fails_the_whole_fetch
               (Sample.env None Faulty.album Sample.playlist_with_gap Sample.resolve_ok)
               (Sample.options None None)
               (QString "https://www.deezer.com/album/302127") JNull "302127"
               Faulty.album (firstn 2 Sample.five) Faulty.no_artist (skipn 2 Sample.five)
               (firstn 2 Sample.five_normalized)
               (new_error ReferenceError "The track artist array was not provided")
               eq_refl eq_refl eq_refl eq_refl eq_refl eq_refl).
Defined.

(** ** Payloads without a track list *)

Lemma search_fetch_throws (env : Env) (options : DeezerOptions) (requester : jsval)
      (query : Query) (kind id : string) (func : string -> M Result)
      (t : list Event) (e : jsError) (msg : string) :
  classify (finalQuery query) = Normal (Some kind, Some id) ->
  get_property kind (functions env options) = Some func ->
  func id = (t, Throw e) ->
  err_loadType e = None ->
  err_message e = Some msg ->
  str_truthy msg = true ->
  search env options query requester
  = (t, Normal (mkSearchResult "LOAD_FAILED" [] None (Some (mkException msg "COMMON")))).
Proof.
  intros Hclass Hfunc Hcall Hload Hmsg Htruthy.
  rewrite (search_matched env options requester query kind id func Hclass Hfunc), Hcall.
  rewrite (failed_with_message e msg Hload Hmsg Htruthy). reflexivity.
Qed.

(** A response that is delivered but has no track list (the catalog answers
    an unknown id with an error object and a success status) is not told
    apart from a transport failure: for an album or a playlist the read of
    the missing list throws in the fetcher, for a track the normalizer
    misses the artist, and the outcome is [LOAD_FAILED] with no tracks and
    that error's message.  A null entry in a track list does the same to the
    album it is in. *)
Theorem payload_without_tracks_is_load_failed :
  (forall env options query requester id album,
      classify (finalQuery query) = Normal (Some "album", Some id) ->
      Axios_get_album env (album_url id) = Normal album ->
      album_tracks album = None ->
      exists msg,
        str_truthy msg = true
        /\ search env options query requester
           = ([HttpGet (album_url id)],
              Normal (mkSearchResult "LOAD_FAILED" [] None
                                     (Some (mkException msg "COMMON")))))
  /\
  (forall env options query requester id playlist,
      classify (finalQuery query) = Normal (Some "playlist", Some id) ->
      Axios_get_playlist env (playlist_url id) = Normal playlist ->
      playlist_tracks playlist = None ->
      exists msg,
        str_truthy msg = true
        /\ search env options query requester
           = ([HttpGet (playlist_url id)],
              Normal (mkSearchResult "LOAD_FAILED" [] None
                                     (Some (mkException msg "COMMON")))))
  /\
  (forall env options query requester id t,
      classify (finalQuery query) = Normal (Some "track", Some id) ->
      Axios_get_track env (track_url id) = Normal (Some t) ->
      dt_artist t = None ->
      search env options query requester
      = ([HttpGet (track_url id)],
         Normal (mkSearchResult "LOAD_FAILED" [] None
                   (Some (mkException "The track artist array was not provided"
                                      "COMMON")))))
  /\
  (forall env options query requester id album before after kept,
      classify (finalQuery query) = Normal (Some "album", Some id) ->
      Axios_get_album env (album_url id) = Normal album ->
      album_tracks_data album = Normal (before ++ None :: after)%list ->
      collect album_item before = Normal kept ->
      exists msg,
        str_truthy msg = true
        /\ search env options query requester
           = ([HttpGet (album_url id)],
              Normal (mkSearchResult "LOAD_FAILED" [] None
                                     (Some (mkException msg "COMMON"))))).
Proof.
  split; [|split; [|split]].
  - intros env options query requester id album Hclass Hget Htracks.
    exists ("Cannot read properties of " ++ "undefined" ++ " (reading '" ++ "data" ++ "')").
    split; [reflexivity|].
    apply (search_fetch_throws env options requester query "album" id
             (getAlbumTracks env options) [HttpGet (album_url id)]
             (new_error TypeError
                ("Cannot read properties of " ++ "undefined" ++ " (reading '" ++ "data" ++ "')"))
             _ Hclass eq_refl); [|reflexivity|reflexivity|reflexivity].
    rewrite getAlbumTracks_eq, Hget. unfold album_tracks_data. rewrite Htracks. reflexivity.
  - intros env options query requester id playlist Hclass Hget Htracks.
    exists ("Cannot read properties of " ++ "undefined" ++ " (reading '" ++ "data" ++ "')").
    split; [reflexivity|].
    apply (search_fetch_throws env options requester query "playlist" id
             (getPlaylistTracks env options) [HttpGet (playlist_url id)]
             (new_error TypeError
                ("Cannot read properties of " ++ "undefined" ++ " (reading '" ++ "data" ++ "')"))
             _ Hclass eq_refl); [|reflexivity|reflexivity|reflexivity].
    rewrite getPlaylistTracks_eq, Hget. unfold playlist_tracks_data. rewrite Htracks.
    reflexivity.
  - intros env options query requester id t Hclass Hget Hartist.
    apply (search_fetch_throws env options requester query "track" id
             (getTrack env) [HttpGet (track_url id)]
             (new_error ReferenceError "The track artist array was not provided") _
             Hclass eq_refl); [|reflexivity|reflexivity|reflexivity].
    rewrite getTrack_eq, Hget. unfold convertToUnresolved. rewrite Hartist. reflexivity.
  - intros env options query requester id album before after kept Hclass Hget Hdata Hbefore.
    exists ("Cannot read properties of " ++ "null" ++ " (reading '" ++ "title" ++ "')").
    split; [reflexivity|].
    apply (search_fetch_throws env options requester query "album" id
             (getAlbumTracks env options) [HttpGet (album_url id)]
             (new_error TypeError
                ("Cannot read properties of " ++ "null" ++ " (reading '" ++ "title" ++ "')"))
             _ Hclass eq_refl); [|reflexivity|reflexivity|reflexivity].
    rewrite getAlbumTracks_eq, Hget, Hdata.
    rewrite (collect_throws_after album_item before after None kept _ Hbefore eq_refl).
    reflexivity.
Qed.

(** The catalog's error body for an unknown id, on each of the three paths. *)
Lemma payload_without_tracks_sample :
  (exists msg,
      str_truthy msg = true
      /\ search (Sample.env (Some Faulty.error_track) Faulty.error_album
                            Faulty.error_playlist Sample.resolve_ok)
                (Sample.options None None) (QString "deezer.com/album/0") JNull
         = ([HttpGet (album_url "0")],
            Normal (mkSearchResult "LOAD_FAILED" [] None (Some (mkException msg "COMMON")))))
  /\ search (Sample.env (Some Faulty.error_track) Faulty.error_album
                        Faulty.error_playlist Sample.resolve_ok)
            (Sample.options None None) (QString "deezer.com/track/0") JNull
     = ([HttpGet (track_url "0")],
        Normal (mkSearchResult "LOAD_FAILED" [] None
                  (Some (mkException "The track artist array was not provided" "COMMON")))).
Proof.
  split.
  - exact (proj1 payload_without_tracks_is_load_failed
                 (Sample.env (Some Faulty.error_track) Faulty.error_album
                             Faulty.error_playlist Sample.resolve_ok)
                 (Sample.options None None) (QString "deezer.com/album/0") JNull "0"
                 Faulty.error_album eq_refl eq_refl eq_refl).
  - exact (proj1 (proj2 (proj2 payload_without_tracks_is_load_failed))
                 (Sample.env (Some Faulty.error_track) Faulty.error_album
                             Faulty.error_playlist Sample.resolve_ok)
                 (Sample.options None None) (QString "deezer.com/track/0") JNull "0"
                 Faulty.error_track eq_refl eq_refl eq_refl).
Defined.

(** ** Outcomes of a successful fetch *)

Lemma name_or_idempotent (name : option string) (placeholder other : string) :
  str_truthy placeholder = true ->
  name_or (Some (name_or name placeholder)) other = name_or name placeholder.
Proof.
  intros H. unfold name_or at 1. rewrite (name_or_truthy name placeholder H). reflexivity.
Qed.

(** An album and a playlist both load as a playlist: the outcome of a
    successful fetch has load type [PLAYLIST_LOADED], no failure field, and
    a summary named after the album or playlist, or "Untitled album" (resp.
    "Untitled playlist") when the payload has no name or an empty one.  The
    interceptor's own default, "Untitled", is never seen: the fetchers
    always return a non-empty name. *)
Theorem container_outcome_is_a_named_playlist :
  (forall env options query requester id album data normalized,
      classify (finalQuery query) = Normal (Some "album", Some id) ->
      Axios_get_album env (album_url id) = Normal album ->
      album_tracks_data album = Normal data ->
      collect album_item data = Normal normalized ->
      exists t r summary,
        search env options query requester = (t, Normal r)
        /\ sr_loadType r = "PLAYLIST_LOADED"
        /\ sr_exception r = None
        /\ sr_playlist r = Some summary
        /\ pl_name summary = name_or (album_name album) "Untitled album"
        /\ str_truthy (pl_name summary) = true)
  /\
  (forall env options query requester id playlist data normalized,
      classify (finalQuery query) = Normal (Some "playlist", Some id) ->
      Axios_get_playlist env (playlist_url id) = Normal playlist ->
      playlist_tracks_data playlist = Normal data ->
      collect playlist_item data = Normal normalized ->
      exists t r summary,
        search env options query requester = (t, Normal r)
        /\ sr_loadType r = "PLAYLIST_LOADED"
        /\ sr_exception r = None
        /\ sr_playlist r = Some summary
        /\ pl_name summary = name_or (playlist_name playlist) "Untitled playlist"
        /\ str_truthy (pl_name summary) = true).
Proof.
  split.
  - intros env options query requester id album data normalized Hclass Hget Hdata Hnorm.
    rewrite (search_matched env options requester query "album" id
                            (getAlbumTracks env options) Hclass eq_refl).
    rewrite getAlbumTracks_eq, Hget, Hdata, Hnorm. unfold fetched.
    cbn [res_name res_tracks]. unfold loaded.
    change (is_container "album") with true. change (load_type "album") with "PLAYLIST_LOADED".
    cbv iota. rewrite name_or_idempotent by reflexivity.
    eexists. eexists. eexists. split; [reflexivity|].
    cbn [sr_loadType sr_exception sr_playlist pl_name].
    repeat split. apply name_or_truthy. reflexivity.
  - intros env options query requester id playlist data normalized Hclass Hget Hdata Hnorm.
    rewrite (search_matched env options requester query "playlist" id
                            (getPlaylistTracks env options) Hclass eq_refl).
    rewrite getPlaylistTracks_eq, Hget, Hdata, Hnorm. unfold fetched.
    cbn [res_name res_tracks]. unfold loaded.
    change (is_container "playlist") with true. change (load_type "playlist") with "PLAYLIST_LOADED".
    cbv iota. rewrite name_or_idempotent by reflexivity.
    eexists. eexists. eexists. split; [reflexivity|].
    cbn [sr_loadType sr_exception sr_playlist pl_name].
    repeat split. apply name_or_truthy. reflexivity.
Qed.

(** An album payload without a name loads as the playlist "Untitled album". *)
Lemma container_outcome_sample :
  exists t r summary,
    search (Sample.env None (mkAlbum None (Some {| at_data := Some Sample.five |}))
                       Sample.playlist_with_gap Sample.resolve_ok)
           (Sample.options None None) (QString "deezer.com/album/302127") JNull
    = (t, Normal r)
    /\ sr_loadType r = "PLAYLIST_LOADED"
    /\ sr_exception r = None
    /\ sr_playlist r = Some summary
    /\ pl_name summary = "Untitled album"
    /\ str_truthy (pl_name summary) = true.
Proof.
  exact (proj1 container_outcome_is_a_named_playlist
               (Sample.env None (mkAlbum None (Some {| at_data := Some Sample.five |}))
                           Sample.playlist_with_gap Sample.resolve_ok)
               (Sample.options None None) (QString "deezer.com/album/302127") JNull
               "302127" (mkAlbum None (Some {| at_data := Some Sample.five |}))
               Sample.five Sample.five_normalized eq_refl eq_refl eq_refl eq_refl).
Defined.

(** Without eager resolution the resolver is never called, and the tracks
    of the outcome are the fetcher's descriptors one for one and in order:
    each is unresolved, has the descriptor's title, author and duration, and
    carries the requester that was passed to [search]. *)
Theorem lazy_search_passes_descriptors_through :
  forall env options query requester kind id func t data,
    convertUnresolved options <> Some true ->
    classify (finalQuery query) = Normal (Some kind, Some id) ->
    get_property kind (functions env options) = Some func ->
    func id = (t, Normal data) ->
    exists r,
      search env options query requester = (t, Normal r)
      /\ length (sr_tracks r) = length (res_tracks data)
      /\ Forall2 (fun q track =>
                    ut_title track = uq_title q
                    /\ ut_author track = uq_author q
                    /\ ut_duration track = uq_duration q
                    /\ ut_requester track = requester
                    /\ ut_track track = None)
                 (res_tracks data) (sr_tracks r).
Proof.
  intros env options query requester kind id func t data Hlazy Hclass Hfunc Hcall.
  rewrite (search_matched env options requester query kind id func Hclass Hfunc), Hcall.
  assert (Hflag : flag (convertUnresolved options) = false).
  { destruct (convertUnresolved options) as [[|]|]; try reflexivity. contradiction Hlazy.
    reflexivity. }
  unfold resolutions, survivors. rewrite Hflag, app_nil_r.
  eexists. split; [reflexivity|]. cbn [loaded sr_tracks].
  split; [apply length_map|].
  induction (res_tracks data) as [|q qs IH]; cbn [map]; constructor; [|exact IH].
  repeat split.
Qed.

Lemma lazy_search_sample :
  exists r,
    search (Sample.env None Sample.album Sample.playlist_with_gap
                       (fun _ => Throw (new_error HostError "No tracks found.")))
           (Sample.options None (Some false))
           (QString "deezer.com/album/302127") (JStr "requester#7")
    = ([HttpGet (album_url "302127")], Normal r)
    /\ length (sr_tracks r) = 5%nat
    /\ Forall2 (fun q track =>
                  ut_title track = uq_title q
                  /\ ut_author track = uq_author q
                  /\ ut_duration track = uq_duration q
                  /\ ut_requester track = JStr "requester#7"
                  /\ ut_track track = None)
               Sample.five_normalized (sr_tracks r).
Proof.
  apply (lazy_search_passes_descriptors_through
           (Sample.env None Sample.album Sample.playlist_with_gap
                       (fun _ => Throw (new_error HostError "No tracks found.")))
           (Sample.options None (Some false))
           (QString "deezer.com/album/302127") (JStr "requester#7") "album" "302127"
           (getAlbumTracks
              (Sample.env None Sample.album Sample.playlist_with_gap
                          (fun _ => Throw (new_error HostError "No tracks found.")))
              (Sample.options None (Some false)))
           [HttpGet (album_url "302127")]
           (mkResult Sample.five_normalized (Some "Discovery")));
    [discriminate | reflexivity | reflexivity | reflexivity].
Defined.

(** [buildSearch] throws in exactly one case, null tracks together with a
    non-empty name.  In every other case it returns the outcome with the
    load type it was given, the tracks it was given (none for null), a
    summary exactly when the name is non-empty, and a failure field, of
    severity [COMMON], exactly when the error message is non-empty. *)
Theorem buildSearch_is_partial_only_on_null_tracks_with_name :
  forall loadType tracks error name,
    ((exists e, buildSearch loadType tracks error name = Throw e)
     <-> tracks = None /\ opt_truthy name = true)
    /\ (forall r,
           buildSearch loadType tracks error name = Normal r ->
           sr_loadType r = loadType
           /\ sr_tracks r = match tracks with Some ts => ts | None => [] end
           /\ (sr_playlist r <> None <-> opt_truthy name = true)
           /\ sr_exception r
              = match error with
                | Some msg =>
                    if str_truthy msg then Some (mkException msg "COMMON") else None
                | None => None
                end).
Proof.
  intros loadType tracks error name. unfold buildSearch. split.
  - split.
    + intros [e He]. destruct name as [n|]; [|discriminate]. cbn [opt_truthy].
      destruct (str_truthy n); [|discriminate]. destruct tracks; [discriminate|]. auto.
    + intros [-> Hname]. destruct name as [n|]; [|discriminate]. cbn [opt_truthy] in Hname.
      rewrite Hname. eexists. reflexivity.
  - intros r. destruct name as [n|]; cbn [opt_truthy].
    + destruct (str_truthy n).
      * destruct tracks as [ts|]; [|discriminate]. intros [= <-].
        cbn [sr_loadType sr_tracks sr_playlist sr_exception].
        repeat split; intros; congruence.
      * intros [= <-]. cbn [sr_loadType sr_tracks sr_playlist sr_exception].
        repeat split; intros; congruence.
    + intros [= <-]. cbn [sr_loadType sr_tracks sr_playlist sr_exception].
      repeat split; intros; congruence.
Qed.

Lemma buildSearch_failed_with_tracks_sample :
  sr_loadType (mkSearchResult "LOAD_FAILED" [Sample.playable "Aerodynamic" 212] None
                              (Some (mkException "partial" "COMMON")))
  = "LOAD_FAILED"
  /\ sr_tracks (mkSearchResult "LOAD_FAILED" [Sample.playable "Aerodynamic" 212] None
                               (Some (mkException "partial" "COMMON")))
     = [Sample.playable "Aerodynamic" 212]
  /\ (sr_playlist (mkSearchResult "LOAD_FAILED" [Sample.playable "Aerodynamic" 212] None
                                  (Some (mkException "partial" "COMMON"))) <> None
      <-> opt_truthy (Some "") = true)
  /\ sr_exception (mkSearchResult "LOAD_FAILED" [Sample.playable "Aerodynamic" 212] None
                                  (Some (mkException "partial" "COMMON")))
     = Some (mkException "partial" "COMMON").
Proof.
  exact (proj2 (buildSearch_is_partial_only_on_null_tracks_with_name
                  "LOAD_FAILED" (Some [Sample.playable "Aerodynamic" 212])
                  (Some "partial") (Some ""))
               _ eq_refl).
Defined.

(** ** More on the classifier *)

Lemma append_assoc (a b c : string) : (a ++ b) ++ c = a ++ (b ++ c).
Proof. induction a as [|ch a IH]; cbn [append]; [|rewrite IH]; reflexivity. Qed.

Lemma starts_in_append (cl : charclass) (a b : string) :
  starts_in cl a = false -> starts_in cl b = false -> starts_in cl (a ++ b) = false.
Proof. destruct a; cbn [append starts_in]; auto. Qed.

(** What follows a catalog URL does not matter, unless it begins with a
    digit: a query string, a fragment or any other text appended to a
    string that classifies leaves its kind and id as they are. *)
Theorem classification_ignores_what_follows :
  forall s tail kind id,
    classify (finalQuery (QString s)) = Normal (Some kind, Some id) ->
    starts_in Digit tail = false ->
    classify (finalQuery (QString (s ++ tail))) = Normal (Some kind, Some id).
Proof.
  intros s tail kind id Hclass Htail.
  apply classify_catalog_url in Hclass. apply classify_catalog_url.
  destruct Hclass as [scheme www locale rest Hscheme Hwww Hlocale Hkind Hid Hall Hrest].
  replace ((scheme ++ www ++ "deezer.com/" ++ locale ++ kind ++ "/" ++ id ++ rest) ++ tail)
    with (scheme ++ www ++ "deezer.com/" ++ locale ++ kind ++ "/" ++ id ++ (rest ++ tail)).
  - apply CatalogUrl; try assumption. apply starts_in_append; assumption.
  - rewrite !append_assoc. reflexivity.
Qed.

Lemma classification_with_query_string :
  classify (finalQuery (QString ("https://www.deezer.com/track/3135556"
                                   ++ "?utm_source=deezer&utm_medium=web")))
  = Normal (Some "track", Some "3135556").
Proof.
  exact (classification_ignores_what_follows
           "https://www.deezer.com/track/3135556" "?utm_source=deezer&utm_medium=web"
           "track" "3135556" eq_refl eq_refl).
Defined.

(** The pattern is anchored and case sensitive: a string that does not begin
    with one of the letters h, w, d (so any string with leading white space,
    an upper-case scheme or host, or text before the URL) is not a catalog
    URL, and a search for it goes to the host. *)
Theorem search_delegates_text_not_starting_a_url :
  forall env options c s requester,
    c <> "h"%char -> c <> "w"%char -> c <> "d"%char ->
    classify (finalQuery (QString (String c s))) = Normal (None, None)
    /\ search env options (QString (String c s)) requester
       = ([HostSearch (QString (String c s)) requester],
          _search env (QString (String c s)) requester).
Proof.
  intros env options c s requester Hh Hw Hd.
  assert (Hclass : classify (finalQuery (QString (String c s))) = Normal (None, None)).
  { apply classify_not_catalog_url. intros kind id Hurl.
    inversion Hurl as [scheme www locale rest Hscheme Hwww _ _ _ _ _ Heq].
    cbn [In] in Hscheme, Hwww.
    destruct Hscheme as [<- | [<- | [<- | []]]];
      destruct Hwww as [<- | [<- | []]];
      cbn [append] in Heq; injection Heq as Hc _; congruence. }
  split; [exact Hclass|].
  apply (search_unmatched env options requester (QString (String c s)) None Hclass).
Qed.

Lemma search_delegates_leading_space :
  classify (finalQuery (QString (String " " "https://www.deezer.com/track/3135556")))
  = Normal (None, None)
  /\ search (Sample.env None Sample.album Sample.playlist_with_gap Sample.resolve_ok)
            (Sample.options None None)
            (QString (String " " "https://www.deezer.com/track/3135556")) JNull
     = ([HostSearch (QString (String " " "https://www.deezer.com/track/3135556")) JNull],
        Normal Sample.host_result).
Proof.
  apply (search_delegates_text_not_starting_a_url
           (Sample.env None Sample.album Sample.playlist_with_gap Sample.resolve_ok)
           (Sample.options None None) " "%char "https://www.deezer.com/track/3135556" JNull);
    discriminate.
Defined.

(** ** Installation into a manager *)

Lemma search_dispatch (env : Env) (options : DeezerOptions) (query : Query)
      (requester : jsval) :
  search env options query requester =
  match classify (finalQuery query) with
  | Throw e => ([], Throw e)
  | Normal (type, id) =>
      if js_in type (functions env options) then dispatch env options requester type id
      else ([HostSearch query requester], _search env query requester)
  end.
Proof.
  unfold search, dispatch.
  destruct (classify (finalQuery query)) as [[type id]|e]; [|reflexivity].
  rewrite bind_lift_normal. reflexivity.
Qed.

Lemma dispatch_capturing (env : Env) (options : DeezerOptions) (requester : jsval)
      (host : Query -> jsval -> Completion SearchResult) (type id : option string) :
  dispatch (capturing env host) options requester type id
  = dispatch env options requester type id.
Proof. reflexivity. Qed.

Lemma invoke_bound_search (fuel : nat) (env : Env) (options : DeezerOptions) (h : Heap)
      (host : Query -> jsval -> Completion SearchResult)
      (query : Query) (requester : jsval) :
  this__search h = Some (HostFunction host) ->
  invoke (S (S fuel)) env options h BoundSearch query requester
  = Some (search (capturing env host) options query requester).
Proof.
  intros Hslot. rewrite search_dispatch. cbn [invoke]. rewrite Hslot.
  destruct (classify (finalQuery query)) as [[type id]|e]; [|reflexivity].
  change (functions (capturing env host) options) with (functions env options).
  destruct (js_in type (functions env options)); reflexivity.
Qed.

(** [load] puts the plugin's [search] in the manager's [search] slot and
    keeps the function that was there as [_search]; the slots of other
    managers are untouched.  From then on a call of the manager's [search]
    completes (two nested calls at most) and is the interceptor run with the
    manager's former search as the captured host search. *)
Theorem load_installs_the_interceptor :
  forall env options h manager host query requester fuel,
    manager_search h manager = HostFunction host ->
    manager_search (load manager h) manager = BoundSearch
    /\ this__search (load manager h) = Some (HostFunction host)
    /\ (forall other, other <> manager ->
                      manager_search (load manager h) other = manager_search h other)
    /\ invoke (S (S fuel)) env options (load manager h)
              (manager_search (load manager h) manager) query requester
       = Some (search (capturing env host) options query requester).
Proof.
  intros env options h manager host query requester fuel Hslot.
  assert (Hbound : manager_search (load manager h) manager = BoundSearch).
  { cbn [load manager_search]. rewrite Nat.eqb_refl. reflexivity. }
  split; [exact Hbound|]. split; [cbn [load this__search]; rewrite Hslot; reflexivity|].
  split.
  - intros other Hother. cbn [load manager_search].
    destruct (Nat.eqb_spec other manager); [contradiction | reflexivity].
  - rewrite Hbound. apply invoke_bound_search. cbn [load this__search].
    rewrite Hslot. reflexivity.
Qed.

(** A heap of two managers with searches of their own, and a plugin not yet
    loaded. *)
Lemma load_sample :
  manager_search
    (load 0 (mkHeap (fun m => HostFunction (fun _ _ => Normal Sample.host_result)) None None))
    0 = BoundSearch
  /\ this__search
       (load 0 (mkHeap (fun m => HostFunction (fun _ _ => Normal Sample.host_result)) None None))
     = Some (HostFunction (fun _ _ => Normal Sample.host_result))
  /\ (forall other, other <> 0%nat ->
        manager_search
          (load 0 (mkHeap (fun m => HostFunction (fun _ _ => Normal Sample.host_result))
                          None None)) other
        = HostFunction (fun _ _ => Normal Sample.host_result))
  /\ invoke 2 (Sample.env None Sample.album Sample.playlist_with_gap Sample.resolve_ok)
            (Sample.options None None)
            (load 0 (mkHeap (fun m => HostFunction (fun _ _ => Normal Sample.host_result))
                            None None))
            (manager_search
               (load 0 (mkHeap (fun m => HostFunction (fun _ _ => Normal Sample.host_result))
                               None None)) 0)
            (QString "one more time") JNull
     = Some (search (capturing (Sample.env None Sample.album Sample.playlist_with_gap
                                           Sample.resolve_ok)
                               (fun _ _ => Normal Sample.host_result))
                    (Sample.options None None) (QString "one more time") JNull).
Proof.
  exact (load_installs_the_interceptor
           (Sample.env None Sample.album Sample.playlist_with_gap Sample.resolve_ok)
           (Sample.options None None)
           (mkHeap (fun m => HostFunction (fun _ _ => Normal Sample.host_result)) None None)
           0%nat (fun _ _ => Normal Sample.host_result) (QString "one more time") JNull 0%nat
           eq_refl).
Defined.

(** [load] is not idempotent.  After a second [load] into the same manager
    the plugin's [_search] is the plugin's own [search]: a call of the
    manager's [search] with a query that is not a catalog URL calls itself
    again and again, so that no number of nested calls lets it complete (an
    engine ends it when its stack is exhausted), and the manager's original
    search can no longer be reached.  Catalog URLs are still answered. *)
Theorem load_twice_loses_the_host_search :
  forall env options h manager query requester,
    this__search (load manager (load manager h)) = Some BoundSearch
    /\ (forall id,
           classify (finalQuery query) = Normal (None, id) ->
           forall fuel,
             invoke fuel env options (load manager (load manager h))
                    (manager_search (load manager (load manager h)) manager)
                    query requester
             = None)
    /\ (forall kind id,
           classify (finalQuery query) = Normal (Some kind, Some id) ->
           forall fuel,
             invoke (S fuel) env options (load manager (load manager h))
                    (manager_search (load manager (load manager h)) manager)
                    query requester
             = Some (search env options query requester)).
Proof.
  intros env options h manager query requester.
  assert (Hbound : manager_search (load manager (load manager h)) manager = BoundSearch).
  { cbn [load manager_search]. rewrite Nat.eqb_refl. reflexivity. }
  assert (Hself : this__search (load manager (load manager h)) = Some BoundSearch).
  { cbn [load this__search manager_search]. rewrite Nat.eqb_refl. reflexivity. }
  split; [exact Hself|]. rewrite Hbound. split.
  - intros id Hclass fuel. induction fuel as [|fuel IH]; [reflexivity|].
    cbn [invoke]. rewrite Hclass, Hself. exact IH.
  - intros kind id Hclass fuel. rewrite search_dispatch. cbn [invoke]. rewrite Hclass.
    destruct (classify_kind _ _ _ Hclass) as [[H _] | (k & i & [= <-] & _ & Hkind)];
      [discriminate H|].
    destruct (kind_has_handler env options kind Hkind) as [func Hfunc].
    unfold js_in. cbn [to_string]. rewrite Hfunc. reflexivity.
Qed.

Lemma load_twice_sample :
  invoke 1000 (Sample.env None Sample.album Sample.playlist_with_gap Sample.resolve_ok)
         (Sample.options None None)
         (load 0 (load 0 (mkHeap (fun m => HostFunction (fun _ _ => Normal Sample.host_result))
                                 None None)))
         (manager_search
            (load 0 (load 0 (mkHeap (fun m => HostFunction
                                                (fun _ _ => Normal Sample.host_result))
                                    None None))) 0)
         (QString "one more time") JNull
  = None.
Proof.
  exact (proj1 (proj2 (load_twice_loses_the_host_search
                         (Sample.env None Sample.album Sample.playlist_with_gap
                                     Sample.resolve_ok)
                         (Sample.options None None)
                         (mkHeap (fun m => HostFunction (fun _ _ => Normal Sample.host_result))
                                 None None)
                         0%nat (QString "one more time") JNull))
               None eq_refl 1000%nat).
Defined.

(** One plugin serves one manager.  When a plugin that is loaded into a
    manager is loaded into a second one, both managers search through the
    plugin, and both delegate to the second manager's former search: what
    the first manager's own search would have answered is lost to it. *)
Theorem load_into_second_manager_redirects_the_first :
  forall env options h first second host1 host2 query requester fuel,
    first <> second ->
    manager_search h first = HostFunction host1 ->
    manager_search h second = HostFunction host2 ->
    invoke (S (S fuel)) env options (load second (load first h))
           (manager_search (load second (load first h)) first) query requester
    = Some (search (capturing env host2) options query requester)
    /\ invoke (S (S fuel)) env options (load second (load first h))
              (manager_search (load second (load first h)) second) query requester
       = Some (search (capturing env host2) options query requester).
Proof.
  intros env options h first second host1 host2 query requester fuel Hne H1 H2.
  assert (Hslot : this__search (load second (load first h)) = Some (HostFunction host2)).
  { cbn [load this__search manager_search].
    destruct (Nat.eqb_spec second first); [congruence|]. rewrite H2. reflexivity. }
  assert (Hfirst : manager_search (load second (load first h)) first = BoundSearch).
  { cbn [load manager_search]. rewrite Nat.eqb_refl.
    destruct (first =? second)%nat; reflexivity. }
  assert (Hsecond : manager_search (load second (load first h)) second = BoundSearch).
  { cbn [load manager_search]. rewrite Nat.eqb_refl. reflexivity. }
  rewrite Hfirst, Hsecond. split; apply invoke_bound_search; exact Hslot.
Qed.

(** Two managers whose searches answer with different load types: after the
    plugin is loaded into both, the first manager gets the second one's
    answer. *)
Lemma load_into_second_manager_sample :
  invoke 2 (Sample.env None Sample.album Sample.playlist_with_gap Sample.resolve_ok)
         (Sample.options None None)
         (load 1 (load 0 (mkHeap
                            (fun m => HostFunction
                                        (fun _ _ => Normal (mkSearchResult
                                                              (if (m =? 0)%nat
                                                               then "SEARCH_RESULT"
                                                               else "NO_MATCHES")
                                                              [] None None)))
                            None None)))
         (manager_search
            (load 1 (load 0 (mkHeap
                               (fun m => HostFunction
                                           (fun _ _ => Normal (mkSearchResult
                                                                 (if (m =? 0)%nat
                                                                  then "SEARCH_RESULT"
                                                                  else "NO_MATCHES")
                                                                 [] None None)))
                               None None))) 0)
         (QString "one more time") JNull
  = Some ([HostSearch (QString "one more time") JNull],
          Normal (mkSearchResult "NO_MATCHES" [] None None)).
Proof.
  exact (proj1 (load_into_second_manager_redirects_the_first
                  (Sample.env None Sample.album Sample.playlist_with_gap Sample.resolve_ok)
                  (Sample.options None None)
                  (mkHeap
                     (fun m => HostFunction
                                 (fun _ _ => Normal (mkSearchResult
                                                       (if (m =? 0)%nat
                                                        then "SEARCH_RESULT"
                                                        else "NO_MATCHES")
                                                       [] None None)))
                     None None)
                  0%nat 1%nat
                  (fun _ _ => Normal (mkSearchResult "SEARCH_RESULT" [] None None))
                  (fun _ _ => Normal (mkSearchResult "NO_MATCHES" [] None None))
                  (QString "one more time") JNull 0%nat
                  (fun H : 0%nat = 1%nat =>
                     eq_ind 0%nat (fun n => match n with O => True | S _ => False end) I 1%nat H)
                  eq_refl eq_refl)).
Defined.

(** ** Structured queries *)

(** Only the text of a structured query is looked at.  When the text is a
    catalog URL, the search does what it does for the text passed as a plain
    string, whatever the query's [source] says: the same request, the same
    resolver calls, the same outcome. *)
Theorem structured_query_source_is_ignored :
  forall env options source text requester kind id,
    classify (finalQuery (QString text)) = Normal (Some kind, Some id) ->
    search env options (QObject (mkSearchQuery source text)) requester
    = search env options (QString text) requester.
Proof.
  intros env options source text requester kind id Hclass.
  assert (Hfinal : finalQuery (QObject (mkSearchQuery source text))
                   = finalQuery (QString text)).
  { destruct text as [|c text]; [discriminate Hclass | reflexivity]. }
  rewrite !search_dispatch, Hfinal, Hclass.
  destruct (classify_kind _ _ _ Hclass) as [[H _] | (k & i & [= <-] & _ & Hkind)];
    [discriminate H|].
  destruct (kind_has_handler env options kind Hkind) as [func Hfunc].
  unfold js_in. cbn [to_string]. rewrite Hfunc. reflexivity.
Qed.

Lemma structured_query_sample :
  search (Sample.env None Sample.album Sample.playlist_with_gap Sample.resolve_ok)
         (Sample.options None None)
         (QObject (mkSearchQuery (Some "soundcloud") "deezer.com/album/302127")) JNull
  = search (Sample.env None Sample.album Sample.playlist_with_gap Sample.resolve_ok)
           (Sample.options None None) (QString "deezer.com/album/302127") JNull.
Proof.
  exact (structured_query_source_is_ignored
           (Sample.env None Sample.album Sample.playlist_with_gap Sample.resolve_ok)
           (Sample.options None None) (Some "soundcloud") "deezer.com/album/302127" JNull
           "album" "302127" eq_refl).
Defined.
